(** * The forward plugin: health checking, upstream selection and lookup

    A shallow embedding of [health.go], [forward.go] and [lookup.go].
    Mutable Go state (the [host] structs behind their pointers) lives in an
    explicit heap; everything the package reaches through other packages
    (sockets, the connection cache, the client's response writer, the next
    plugin, [math/rand]) is an operation of an environment record acting on
    an abstract network state.  Every call that leaves the package is also
    appended to a trace, so that theorems can speak about which calls a run
    performs and in which order. *)

From Stdlib Require Import ZArith List String Bool Lia Permutation.
Import ListNotations.
Local Open Scope string_scope.
Local Open Scope list_scope.
Local Open Scope Z_scope.

(** ** Values of the message codec ([github.com/miekg/dns]) *)

Inductive error :=
| ErrTruncated                 (* dns.ErrTruncated *)
| errInvalidDomain             (* forward.go, var block *)
| errNoHealthy                 (* forward.go, var block *)
| ErrOther (msg : string).     (* any other error value *)

Definition error_eqb (a b : error) : bool :=
  match a, b with
  | ErrTruncated, ErrTruncated => true
  | errInvalidDomain, errInvalidDomain => true
  | errNoHealthy, errNoHealthy => true
  | ErrOther x, ErrOther y => String.eqb x y
  | _, _ => false
  end.

Definition TypeA : Z := 1.
Definition TypeNS : Z := 2.
Definition ClassINET : Z := 1.
Definition RcodeServerFailure : Z := 2.

Record Question := mkQuestion { Qname : string; Qtype : Z; Qclass : Z }.

(** The OPT pseudo-record of a message, reduced to the two settings the
    package reads: the advertised payload size and the DO bit. *)
Record OPT := mkOPT { UDPSize : Z; Do : bool }.

(** A message, reduced to the fields the package reads or writes. *)
Record Msg := mkMsg {
  RecursionDesired : bool;
  Rcode : Z;
  Questions : list Question;
  IsEdns0 : option OPT
}.

(** [new(dns.Msg)]: the zero value. *)
Definition new_Msg : Msg :=
  {| RecursionDesired := false; Rcode := 0; Questions := []; IsEdns0 := None |}.

(** Modelled from the spec: [Msg.SetQuestion] belongs to the codec,
    outside src; section 4.4 says it "constructs a new query for the given
    name/type".  The codec makes it a recursive query of class IN. *)
Definition SetQuestion (m : Msg) (z : string) (t : Z) : Msg :=
  {| RecursionDesired := true;
     Rcode := Rcode m;
     Questions := [mkQuestion z t ClassINET];
     IsEdns0 := IsEdns0 m |}.

Definition set_RecursionDesired (m : Msg) (b : bool) : Msg :=
  {| RecursionDesired := b; Rcode := Rcode m;
     Questions := Questions m; IsEdns0 := IsEdns0 m |}.

(** ** Handles and structs *)

Definition ptr := nat.              (* address of a [host] on the heap *)
Definition Conn := nat.             (* a connection handed out by [Dial] *)
Definition Client := nat.           (* *dns.Client *)
Definition ResponseWriter := nat.   (* dns.ResponseWriter *)
Definition Handler := nat.          (* plugin.Handler *)
Definition Context := nat.          (* context.Context *)
Definition tls_Config := nat.       (* *tls.Config *)

(** The [host] struct (declared outside src; these are the fields the
    sources use).  The embedded mutex has no content in a sequential run. *)
Record host := mkHost {
  addr : string;
  client : Client;
  tlsConfig : option tls_Config;
  fails : Z;                        (* uint32 *)
  checking : bool
}.

(** The [proxy] struct, reduced to the field the sources use.  A [*proxy]
    may be nil: [None]. *)
Record proxy := mkProxy { proxy_host : ptr }.

Definition proxy_ptr := option proxy.

Record Request := mkRequest { W : ResponseWriter; Req : Msg }.

(** The [Forward] struct.  [tlsConfig], [tlsServerName], [expire] and
    [hcInterval] are read by no function below and are left out. *)
Record Forward := mkForward {
  proxies : list proxy_ptr;
  from : string;
  ignored : list string;
  maxfails : Z;                     (* uint32 *)
  forceTCP : bool;
  Next : Handler
}.

(** ** Calls that leave the package *)

Inductive Metric :=
| HealthcheckFailureCount | RequestCount | RcodeCount | RequestDuration.

Inductive Event :=
| EvExchange (c : Client) (m : Msg) (a : string)
| EvLog (format : string) (args : list string) (err : error)
| EvMetric (m : Metric) (labels : list string)
| EvDial (p : proxy) (proto : string)
| EvSetUDPSize (c : Conn) (size : Z)
| EvSetWriteDeadline (c : Conn)
| EvWriteMsg (c : Conn) (m : Msg)
| EvSetReadDeadline (c : Conn)
| EvReadMsg (c : Conn)
| EvClose (c : Conn)
| EvYield (p : proxy) (c : Conn)
| EvClientWrite (w : ResponseWriter) (m : Msg)
| EvConnect (p : proxy) (state : Request) (forceTCP metric : bool)
| EvNextOrFailure (name : string) (next : Handler) (w : ResponseWriter) (r : Msg)
| EvRandInt
| EvRandPerm (n : nat).

(** The environment: what the imported packages and the parts of this
    package outside src do.  [Net] is their state (sockets, cached
    connections, peers, the random source). *)
Record Env := mkEnv {
  Net : Type;
  Exchange : Client -> Msg -> string -> Net -> option error * Net;
  Dial : proxy -> string -> Net -> (Conn + error) * Net;
  WriteMsg : Conn -> Msg -> Net -> option error * Net;
  ReadMsg : Conn -> Net -> (Msg + error) * Net;
  Close : Conn -> Net -> Net;
  Yield : proxy -> Conn -> Net -> Net;
  connect : proxy -> Request -> bool -> bool -> Net -> (Msg + error) * Net;
  ClientWriteMsg : ResponseWriter -> Msg -> Net -> Net;
  NextOrFailure :
    string -> Handler -> Context -> ResponseWriter -> Msg -> Net ->
    (Z * option error) * Net;
  rand_Int : Net -> Z * Net;
  rand_Perm : nat -> Net -> list nat * Net;
  Matches : string -> string -> bool;       (* plugin.Name(zone).Matches(name) *)
  state_Name : Request -> string;
  state_Proto : Request -> string;
  state_Size : Request -> Z;
  RcodeToString : Z -> option string;
  Itoa : Z -> string
}.

(** ** State and the monad of method bodies *)

Section Model.

Variable env : Env.

Record World := mkWorld {
  hosts : ptr -> host;
  net : Net env;
  trace : list Event
}.

Inductive Outcome (A : Type) :=
| Return (a : A)
| Panic.
Arguments Return {A} a.
Arguments Panic {A}.

Definition M (A : Type) := World -> Outcome A * World.

Definition ret {A} (a : A) : M A := fun w => (Return a, w).

Definition bind {A B} (c : M A) (k : A -> M B) : M B :=
  fun w => match c w with
           | (Return a, w') => k a w'
           | (Panic, w') => (Panic, w')
           end.

Definition panic {A} : M A := fun w => (Panic, w).

Notation "x <- c ;; k" := (bind c (fun x => k))
  (at level 100, c at next level, right associativity).
Notation "c ;;; k" := (bind c (fun _ => k))
  (at level 100, right associativity).

Definition emit (e : Event) : M unit :=
  fun w => (Return tt, mkWorld (hosts w) (net w) (trace w ++ [e])).

(** An external call: recorded in the trace, answered by the environment. *)
Definition call {A} (e : Event) (op : Net env -> A * Net env) : M A :=
  fun w => let (a, n) := op (net w) in
           (Return a, mkWorld (hosts w) n (trace w ++ [e])).

Definition call_ (e : Event) (op : Net env -> Net env) : M unit :=
  call e (fun n => (tt, op n)).

Definition deref (h : ptr) : M host := fun w => (Return (hosts w h), w).

Definition store (h : ptr) (v : host) : M unit :=
  fun w => (Return tt,
            mkWorld (fun q => if Nat.eqb q h then v else hosts w q)
                    (net w) (trace w)).

(** ** health.go *)

Definition uint32 (z : Z) : Z := z mod 2 ^ 32.

Definition set_checking (v : host) (b : bool) : host :=
  mkHost (addr v) (client v) (tlsConfig v) (fails v) b.

Definition set_fails (v : host) (n : Z) : host :=
  mkHost (addr v) (client v) (tlsConfig v) n (checking v).

Definition atomic_AddUint32_fails (h : ptr) (delta : Z) : M unit :=
  v <- deref h ;; store h (set_fails v (uint32 (fails v + delta))).

Definition atomic_StoreUint32_fails (h : ptr) (n : Z) : M unit :=
  v <- deref h ;; store h (set_fails v n).

Definition store_checking (h : ptr) (b : bool) : M unit :=
  v <- deref h ;; store h (set_checking v b).

Definition send (h : ptr) : M (option error) :=
  let hcping := SetQuestion new_Msg "." TypeNS in
  let hcping := set_RecursionDesired hcping false in
  v <- deref h ;;
  err <- call (EvExchange (client v) hcping (addr v))
              (Exchange env (client v) hcping (addr v)) ;;
  (* Truncated means we've seen TC, which is good enough for us. *)
  ret (match err with
       | Some e => if error_eqb e ErrTruncated then None else Some e
       | None => None
       end).

(** [Check], as one goroutine runs it while others run too.  The body
    holds the lock of [h] in its first three and its last statement only;
    [before] is what the other goroutines do once the first critical
    section has released the lock and before the exchange, [after] what
    they do once [send] has returned. *)
Definition Check_during (before after : M unit) (h : ptr) : M unit :=
  v <- deref h ;;
  if checking v then ret tt
  else
    store_checking h true ;;;
    before ;;;
    err <- send h ;;
    after ;;;
    (match err with
     | Some e =>
         emit (EvLog "[INFO] healtheck of %s failed with %s" [addr v] e) ;;;
         emit (EvMetric HealthcheckFailureCount [addr v]) ;;;
         atomic_AddUint32_fails h 1
     | None => atomic_StoreUint32_fails h 0
     end) ;;;
    store_checking h false.

(** [Check] with nothing running in between. *)
Definition host_Check (h : ptr) : M unit :=
  Check_during (ret tt) (ret tt) h.

Definition down (v : host) (maxfails : Z) : bool :=
  if maxfails =? 0 then false
  else fails v >? maxfails.

(** The probe message of [send]. *)
Definition hcping : Msg :=
  set_RecursionDesired (SetQuestion new_Msg "." TypeNS) false.

(** The world in which [Check] sends its probe: the flag has been set. *)
Definition probing (h : ptr) (w : World) : World :=
  snd (store_checking h true w).

(** ** forward.go *)

Definition Forward_Len (f : Forward) : nat := List.length (proxies f).

Definition Forward_Name (f : Forward) : string := "forward".

(** Modelled from the spec: [proxy.Down] is declared outside src; section
    4.3 step 3 skips "any Upstream for which IsDown(maxFails) is true",
    that is, it asks the upstream's [host]. *)
Definition proxy_Down (p : proxy) (maxfails : Z) : M bool :=
  v <- deref (proxy_host p) ;; ret (down v maxfails).

Fixpoint range_ignored (ignored : list string) (name : string) : bool :=
  match ignored with
  | [] => true
  | ignore :: rest =>
      if Matches env ignore name then false
      else range_ignored rest name
  end.

Definition isAllowedDomain (f : Forward) (name : string) : bool :=
  if String.eqb name (from f) then true
  else range_ignored (ignored f) name.

Definition Forward_match (f : Forward) (state : Request) : bool :=
  let from := from f in
  if negb (Matches env from (state_Name env state))
     || negb (isAllowedDomain f (state_Name env state))
  then false
  else true.

(** [l[i]], panicking out of range. *)
Definition index {A} (l : list A) (i : nat) : M A :=
  match nth_error l i with
  | Some x => ret x
  | None => panic
  end.

(** [l[i] = x], [None] out of range. *)
Fixpoint update {A} (i : nat) (x : A) (l : list A) : option (list A) :=
  match l, i with
  | [], _ => None
  | _ :: t, O => Some (x :: t)
  | y :: t, S j => option_map (cons y) (update j x t)
  end.

(** [for i, p := range perms { rnd[i] = f.proxies[p] }], from index [i]. *)
Fixpoint range_perms (ps : list proxy_ptr) (perms : list nat) (i : nat)
    (rnd : list proxy_ptr) : M (list proxy_ptr) :=
  match perms with
  | [] => ret rnd
  | p :: rest =>
      x <- index ps p ;;
      match update i x rnd with
      | Some rnd' => range_perms ps rest (S i) rnd'
      | None => panic
      end
  end.

Definition Forward_list (f : Forward) : M (list proxy_ptr) :=
  match List.length (proxies f) with
  | 1%nat => ret (proxies f)
  | 2%nat =>
      r <- call EvRandInt (rand_Int env) ;;
      if Z.rem r 2 =? 0
      then
        p1 <- index (proxies f) 1 ;;
        p0 <- index (proxies f) 0 ;;
        ret [p1; p0] (* swap *)
      else ret (proxies f) (* normal *)
  | n =>
      perms <- call (EvRandPerm n) (rand_Perm env n) ;;
      let rnd := repeat (None : proxy_ptr) n in
      range_perms (proxies f) perms 0 rnd
  end.

Definition uint16 (z : Z) : Z := z mod 2 ^ 16.

(** The body of the loop of [ServeDNS] for one proxy: [Some] is a
    [return], [None] a [continue]. *)
Definition trial (f : Forward) (state : Request) (p : proxy)
  : M (option (Z * option error)) :=
  d <- proxy_Down p (maxfails f) ;;
  if d then ret None
  else
    v <- deref (proxy_host p) ;;
    let proto := state_Proto env state in
    let proto := if forceTCP f then "tcp" else proto in
    let proto := match tlsConfig v with Some _ => "tcp-tls" | None => proto end in
    r <- call (EvDial p proto) (Dial env p proto) ;;
    match r with
    | inr err =>
        emit (EvLog "[WARNING] Failed to connect with %s to %s: %s"
                    [proto; addr v] err) ;;;
        ret None
    | inl conn =>
        (* Set buffer size correctly for this client. *)
        let size := uint16 (state_Size env state) in
        emit (EvSetUDPSize conn size) ;;;
        (if size <? 512 then emit (EvSetUDPSize conn 512) else ret tt) ;;;
        emit (EvSetWriteDeadline conn) ;;;
        e <- call (EvWriteMsg conn (Req state)) (WriteMsg env conn (Req state)) ;;
        match e with
        | Some err =>
            emit (EvLog "[WARNING] Failed to write with %s to %s: %s"
                        [proto; addr v] err) ;;;
            call_ (EvClose conn) (Close env conn) ;;; (* not giving it back *)
            ret None
        | None =>
            emit (EvSetReadDeadline conn) ;;;
            r <- call (EvReadMsg conn) (ReadMsg env conn) ;;
            match r with
            | inr err =>
                emit (EvLog "[WARNING] Failed to read with %s to %s: %s"
                            [proto; addr v] err) ;;;
                call_ (EvClose conn) (Close env conn) ;;; (* not giving it back *)
                ret None
            | inl reply =>
                call_ (EvClientWrite (W state) reply)
                      (ClientWriteMsg env (W state) reply) ;;;
                call_ (EvYield p conn) (Yield env p conn) ;;;
                let rc := match RcodeToString env (Rcode reply) with
                          | Some s => s
                          | None => Itoa env (Rcode reply)
                          end in
                emit (EvMetric RequestCount [addr v]) ;;;
                emit (EvMetric RcodeCount [rc; addr v]) ;;;
                emit (EvMetric RequestDuration [addr v]) ;;;
                ret (Some (0, None))
            end
        end
    end.

(** [for _, proxy := range f.list() { ... }] of [ServeDNS], and what
    follows the loop.  Calling [Down] on a nil [*proxy] panics. *)
Fixpoint range_ServeDNS (f : Forward) (state : Request) (ps : list proxy_ptr)
  : M (Z * option error) :=
  match ps with
  | [] => ret (RcodeServerFailure, Some errNoHealthy)
  | None :: _ => panic
  | Some p :: rest =>
      r <- trial f state p ;;
      match r with
      | Some v => ret v
      | None => range_ServeDNS f state rest
      end
  end.

Definition ServeDNS (f : Forward) (ctx : Context) (w : ResponseWriter) (r : Msg)
  : M (Z * option error) :=
  let state := mkRequest w r in
  if negb (Forward_match f state)
  then call (EvNextOrFailure (Forward_Name f) (Next f) w r)
            (NextOrFailure env (Forward_Name f) (Next f) ctx w r)
  else
    ps <- Forward_list f ;;
    range_ServeDNS f state ps.

(** ** lookup.go *)

Fixpoint range_Forward (f : Forward) (state : Request) (ps : list proxy_ptr)
  : M (option Msg * option error) :=
  match ps with
  | [] => ret (None, Some errNoHealthy)
  | None :: _ => panic
  | Some p :: rest =>
      d <- proxy_Down p (maxfails f) ;;
      if d then range_Forward f state rest
      else
        r <- call (EvConnect p state (forceTCP f) true)
                  (connect env p state (forceTCP f) true) ;;
        match r with
        | inr err =>
            v <- deref (proxy_host p) ;;
            emit (EvLog "[WARNING] Failed to connect %s: %s" [addr v] err) ;;;
            range_Forward f state rest
        | inl m => ret (Some m, None)
        end
  end.

Definition Forward_Forward (f : Forward) (state : Request)
  : M (option Msg * option error) :=
  ps <- Forward_list f ;;
  range_Forward f state ps.

Definition set_opt (m : Msg) (o : OPT) : Msg :=
  {| RecursionDesired := RecursionDesired m; Rcode := Rcode m;
     Questions := Questions m; IsEdns0 := Some o |}.

(** Modelled from the spec: [request.Request.SizeAndDo] belongs to the
    request package, outside src; section 4.4 says it "copies the
    protocol-extension settings (payload size, security-flag) from
    originalRequest onto" the new query.  A request without the extension
    has no settings to copy. *)
Definition SizeAndDo (state : Request) (m : Msg) : Msg :=
  match IsEdns0 (Req state) with
  | Some o => set_opt m (mkOPT (UDPSize o) (Do o))
  | None => m
  end.

Definition Lookup (f : Forward) (state : Request) (name : string) (typ : Z)
  : M (option Msg * option error) :=
  let req := new_Msg in
  let req := SetQuestion req name typ in
  let req := SizeAndDo state req in
  let state2 := mkRequest (W state) req in
  Forward_Forward f state2.

(** ** What happens on the wire during one trial

    The environment's answers alone, in the order [ServeDNS] asks for
    them: the vocabulary in which the statements below say that a trial
    was skipped, failed or got a reply. *)

Inductive TrialOutcome :=
| Skipped
| DialFailed (err : error)
| WriteFailed (conn : Conn) (err : error)
| ReadFailed (conn : Conn) (err : error)
| Replied (conn : Conn) (reply : Msg).

Definition proto_of (f : Forward) (state : Request) (v : host) : string :=
  match tlsConfig v with
  | Some _ => "tcp-tls"
  | None => if forceTCP f then "tcp" else state_Proto env state
  end.

Definition trial_outcome (f : Forward) (state : Request) (p : proxy) (w : World)
  : TrialOutcome :=
  let v := hosts w (proxy_host p) in
  if down v (maxfails f) then Skipped
  else
    match Dial env p (proto_of f state v) (net w) with
    | (inr err, _) => DialFailed err
    | (inl conn, n1) =>
        match WriteMsg env conn (Req state) n1 with
        | (Some err, _) => WriteFailed conn err
        | (None, n2) =>
            match ReadMsg env conn n2 with
            | (inr err, _) => ReadFailed conn err
            | (inl reply, _) => Replied conn reply
            end
        end
    end.

Definition is_Replied (o : TrialOutcome) : bool :=
  match o with Replied _ _ => true | _ => false end.

(** Every trial of the order [ps], each started in the state the one
    before it left, is skipped or fails. *)
Fixpoint all_trials_fail (f : Forward) (state : Request) (ps : list proxy)
    (w : World) : Prop :=
  match ps with
  | [] => True
  | p :: rest =>
      is_Replied (trial_outcome f state p w) = false /\
      all_trials_fail f state rest (snd (trial f state p w))
  end.

(** The calls one trial makes, by what came back. *)
Definition udp_events (conn : Conn) (size : Z) : list Event :=
  EvSetUDPSize conn size ::
  (if size <? 512 then [EvSetUDPSize conn 512] else []).

Definition rcode_label (reply : Msg) : string :=
  match RcodeToString env (Rcode reply) with
  | Some s => s
  | None => Itoa env (Rcode reply)
  end.

Definition write_events (f : Forward) (state : Request) (p : proxy) (v : host)
    (conn : Conn) : list Event :=
  EvDial p (proto_of f state v) ::
  udp_events conn (uint16 (state_Size env state)) ++
  [EvSetWriteDeadline conn; EvWriteMsg conn (Req state)].

Definition relay_events (state : Request) (p : proxy) (v : host)
    (conn : Conn) (reply : Msg) : list Event :=
  [EvClientWrite (W state) reply; EvYield p conn;
   EvMetric RequestCount [addr v];
   EvMetric RcodeCount [rcode_label reply; addr v];
   EvMetric RequestDuration [addr v]].

Definition trial_events (f : Forward) (state : Request) (p : proxy) (v : host)
    (o : TrialOutcome) : list Event :=
  let proto := proto_of f state v in
  match o with
  | Skipped => []
  | DialFailed err =>
      [EvDial p proto;
       EvLog "[WARNING] Failed to connect with %s to %s: %s" [proto; addr v] err]
  | WriteFailed conn err =>
      write_events f state p v conn ++
      [EvLog "[WARNING] Failed to write with %s to %s: %s" [proto; addr v] err;
       EvClose conn]
  | ReadFailed conn err =>
      write_events f state p v conn ++
      [EvSetReadDeadline conn; EvReadMsg conn;
       EvLog "[WARNING] Failed to read with %s to %s: %s" [proto; addr v] err;
       EvClose conn]
  | Replied conn reply =>
      write_events f state p v conn ++
      [EvSetReadDeadline conn; EvReadMsg conn] ++
      relay_events state p v conn reply
  end.

(** A computation that leaves every [host] as it is. *)
Definition keeps_hosts {A} (c : M A) : Prop :=
  forall w, hosts (snd (c w)) = hosts w.

Definition is_Dial (e : Event) : bool :=
  match e with EvDial _ _ => true | _ => false end.

Definition is_ClientWrite (e : Event) : bool :=
  match e with EvClientWrite _ _ => true | _ => false end.

Definition is_Yield (e : Event) : bool :=
  match e with EvYield _ _ => true | _ => false end.

Definition is_Close_of (c : Conn) (e : Event) : bool :=
  match e with EvClose c' => Nat.eqb c' c | _ => false end.

(** ** Whole runs *)

(** The trials [ServeDNS] makes over the order [ps], each with what came
    back, up to and including the first reply. *)
Fixpoint outcomes (f : Forward) (state : Request) (ps : list proxy)
    (w : World) : list (proxy * TrialOutcome) :=
  match ps with
  | [] => []
  | p :: rest =>
      let o := trial_outcome f state p w in
      (p, o) :: (if is_Replied o then []
                 else outcomes f state rest (snd (trial f state p w)))
  end.

Definition events_of (f : Forward) (state : Request) (hs : ptr -> host)
    (os : list (proxy * TrialOutcome)) : list Event :=
  flat_map (fun po => trial_events f state (fst po)
                        (hs (proxy_host (fst po))) (snd po)) os.

Definition replied (os : list (proxy * TrialOutcome)) : bool :=
  existsb (fun po => is_Replied (snd po)) os.

Definition is_Skipped (o : TrialOutcome) : bool :=
  match o with Skipped => true | _ => false end.

(** The connection a trial got from [Dial], if it got one. *)
Definition conn_of (o : TrialOutcome) : option Conn :=
  match o with
  | Skipped | DialFailed _ => None
  | WriteFailed c _ | ReadFailed c _ | Replied c _ => Some c
  end.

(** How many of the calls [evs] satisfy [P]. *)
Definition count (P : Event -> bool) (evs : list Event) : nat :=
  List.length (filter P evs).

Definition is_WriteMsg (e : Event) : bool :=
  match e with EvWriteMsg _ _ => true | _ => false end.

Definition is_Close (e : Event) : bool :=
  match e with EvClose _ => true | _ => false end.

Definition is_Rand (e : Event) : bool :=
  match e with EvRandInt | EvRandPerm _ => true | _ => false end.

Definition is_Connect (e : Event) : bool :=
  match e with EvConnect _ _ _ _ => true | _ => false end.

Definition is_Log (e : Event) : bool :=
  match e with EvLog _ _ _ => true | _ => false end.

(** The value of [conn.UDPSize] that the assignments among [evs] leave:
    the last one wins. *)
Fixpoint UDPSize_after (conn : Conn) (evs : list Event) : option Z :=
  match evs with
  | [] => None
  | e :: rest =>
      match UDPSize_after conn rest with
      | Some s => Some s
      | None =>
          match e with
          | EvSetUDPSize c s => if Nat.eqb c conn then Some s else None
          | _ => None
          end
      end
  end.

(** The upstream that answers a [Forward] over the order [ps], with its
    reply: the first upstream of the order that is up and whose [connect]
    returns a message, the environment being asked in trial order. *)
Fixpoint first_answer (f : Forward) (state : Request) (hs : ptr -> host)
    (ps : list proxy) (n : Net env) : option (proxy * Msg) :=
  match ps with
  | [] => None
  | p :: rest =>
      if down (hs (proxy_host p)) (maxfails f)
      then first_answer f state hs rest n
      else
        match connect env p state (forceTCP f) true n with
        | (inl m, _) => Some (p, m)
        | (inr _, n') => first_answer f state hs rest n'
        end
  end.

(** [k] health checks of the same host, one after the other. *)
Fixpoint probes (k : nat) (h : ptr) : M unit :=
  match k with
  | O => ret tt
  | S k' => host_Check h ;;; probes k' h
  end.

End Model.

Arguments Return {A} a.
Arguments Panic {A}.
Arguments ret {env A} a.
Arguments bind {env A B} c k.
Arguments panic {env A}.

(** ** A scripted environment

    One concrete environment to run the model on: the upstream at handle
    [k] is reached through connection [k]; the scripts say how its dial,
    write, read and health exchange answer. *)

Definition ends_with (suffix s : string) : bool :=
  let n := String.length s in
  let m := String.length suffix in
  (m <=? n)%nat && String.eqb (substring (n - m) m s) suffix.

Definition script_Matches (zone name : string) : bool :=
  String.eqb zone name || String.eqb zone "." || ends_with ("." ++ zone)%string name.

Definition script_Name (state : Request) : string :=
  match Questions (Req state) with
  | q :: _ => Qname q
  | [] => "."
  end.

Definition script_Size (state : Request) : Z :=
  match IsEdns0 (Req state) with
  | Some o => UDPSize o
  | None => 512
  end.

Definition script_env
    (dial : proxy -> Conn + error)
    (write : Conn -> option error)
    (read : Conn -> Msg + error)
    (exchange : string -> option error) : Env :=
  {| Net := unit;
     Exchange := fun _ _ a n => (exchange a, n);
     Dial := fun p _ n => (dial p, n);
     WriteMsg := fun c _ n => (write c, n);
     ReadMsg := fun c n => (read c, n);
     Close := fun _ n => n;
     Yield := fun _ _ n => n;
     connect := fun p _ _ _ n =>
       (match dial p with
        | inl c => match write c with
                   | None => read c
                   | Some e => inr e
                   end
        | inr e => inr e
        end, n);
     ClientWriteMsg := fun _ _ n => n;
     NextOrFailure := fun _ _ _ _ _ n => ((0, None), n);
     rand_Int := fun n => (4, n);
     rand_Perm := fun k n => (rev (seq 0 k), n);
     Matches := script_Matches;
     state_Name := script_Name;
     state_Proto := fun _ => "udp";
     state_Size := script_Size;
     RcodeToString := fun rc =>
       if rc =? 0 then Some "NOERROR"
       else if rc =? 2 then Some "SERVFAIL"
       else if rc =? 3 then Some "NXDOMAIN"
       else None;
     Itoa := fun _ => "?" |}.

Definition refused : error := ErrOther "connection refused".
Definition timed_out : error := ErrOther "i/o timeout".

Definition query (name : string) (t : Z) : Msg := SetQuestion new_Msg name t.

Definition reply_with (rcode : Z) : Msg :=
  {| RecursionDesired := true; Rcode := rcode;
     Questions := [mkQuestion "www.example.org." TypeA ClassINET];
     IsEdns0 := None |}.

Definition addr_of (k : ptr) : string :=
  match k with
  | 0%nat => "10.0.0.1:53"
  | 1%nat => "10.0.0.2:53"
  | 2%nat => "10.0.0.3:53"
  | _ => "10.0.0.9:53"
  end.

(** A heap of hosts without TLS: host [k] has failure counter [n k] and
    probe flag [flag k]. *)
Definition heap_with (n : ptr -> Z) (flag : ptr -> bool) : ptr -> host :=
  fun k => mkHost (addr_of k) k None (n k) (flag k).

Definition world0 (env : Env) (s : Net env) (n : ptr -> Z) (flag : ptr -> bool)
  : World env :=
  mkWorld env (heap_with n flag) s [].

Definition upstreams (k : nat) : list proxy_ptr :=
  map (fun i => Some (mkProxy i)) (seq 0 k).

Definition example_org (k : nat) (maxfails : Z) : Forward :=
  {| proxies := upstreams k;
     from := "example.org.";
     ignored := ["internal.example.org."];
     maxfails := maxfails;
     forceTCP := false;
     Next := 0%nat |}.

(** Every dial is refused. *)
Definition env_refused : Env :=
  script_env (fun _ => inr refused) (fun _ => None)
             (fun _ => inl (reply_with 0)) (fun _ => None).

(** Every dial succeeds; the write on connection 2 and the read on
    connection 1 time out, connection 0 answers SERVFAIL.  The health
    exchange with the first host succeeds, the one with the second is
    truncated, any other times out. *)
Definition env_flaky : Env :=
  script_env
    (fun p => inl (proxy_host p))
    (fun c => if Nat.eqb c 2 then Some timed_out else None)
    (fun c => if Nat.eqb c 1 then inr timed_out
              else inl (reply_with RcodeServerFailure))
    (fun a => if String.eqb a "10.0.0.1:53" then None
              else if String.eqb a "10.0.0.2:53" then Some ErrTruncated
              else Some timed_out).

(** All counters at 5, no probe in flight. *)
Definition start_refused : World env_refused :=
  world0 env_refused tt (fun _ => 5) (fun _ => false).

Definition start_flaky : World env_flaky :=
  world0 env_flaky tt (fun _ => 5) (fun _ => false).


(** A host that failed five probes in a row. *)
Definition host_5 : host := mkHost "10.0.0.1:53" 0%nat None 5 false.

Definition www : Msg := query "www.example.org." TypeA.

(** A query that advertises a payload size of 4096 and sets DO. *)
Definition www_4096 : Msg :=
  set_opt www (mkOPT 4096 true).

(** All counters at 0, no probe in flight. *)
Definition fresh_flaky : World env_flaky :=
  world0 env_flaky tt (fun _ => 0) (fun _ => false).

(** The order the scripted random source gives three upstreams, and the
    state in which [list] hands it over. *)
Definition order_210 : list proxy :=
  [mkProxy 2%nat; mkProxy 1%nat; mkProxy 0%nat].

Definition listed_flaky : World env_flaky :=
  mkWorld env_flaky (hosts env_flaky start_flaky) tt [EvRandPerm 3%nat].

Definition listed_refused : World env_refused :=
  mkWorld env_refused (hosts env_refused start_refused) tt [EvRandPerm 3%nat].

(** [example_org 1 2] with its ignored name written twice. *)
Definition example_org_twice : Forward :=
  {| proxies := upstreams 1%nat;
     from := "example.org.";
     ignored := ["internal.example.org."; "internal.example.org."];
     maxfails := 2;
     forceTCP := false;
     Next := 0%nat |}.

(** The reading of C1 under which [ServeDNS] itself answers the client:
    among the calls [evs] there is a write of a server-failure message. *)
Definition writes_servfail_to_client (evs : list Event) : Prop :=
  exists cw m, In (EvClientWrite cw m) evs /\ Rcode m = RcodeServerFailure.

(** * Facts *)

Section Facts.

Variable env : Env.

(** ** Health checks *)

Lemma error_eqb_eq (a b : error) : error_eqb a b = true <-> a = b.
Proof.
  destruct a, b; simpl; split; intro H;
    try reflexivity; try discriminate; try congruence.
  - apply String.eqb_eq in H. now subst.
  - inversion H. apply String.eqb_refl.
Qed.

Lemma error_eqb_neq (a b : error) : a <> b -> error_eqb a b = false.
Proof.
  intro H. destruct (error_eqb a b) eqn:E; [|reflexivity].
  apply error_eqb_eq in E. contradiction.
Qed.


Lemma probing_fails (h : ptr) (w : World env) :
  fails (hosts env (probing env h w) h) = fails (hosts env w h).
Proof.
  unfold probing, store_checking, bind, deref, store. simpl.
  now rewrite Nat.eqb_refl.
Qed.

Lemma send_run (h : ptr) (w : World env) :
  let v := hosts env w h in
  let r := Exchange env (client v) hcping (addr v) (net env w) in
  send env h w =
  (Return (match fst r with
           | Some e => if error_eqb e ErrTruncated then None else Some e
           | None => None
           end),
   mkWorld env (hosts env w) (snd r)
           (trace env w ++ [EvExchange (client v) hcping (addr v)])).
Proof.
  unfold send, bind, deref, call, ret. simpl. fold hcping.
  destruct (Exchange env _ _ _ _) as [e n]. reflexivity.
Qed.

Lemma uint32_small (z : Z) : 0 <= z < 2 ^ 32 -> uint32 z = z.
Proof. intro H. unfold uint32. now apply Z.mod_small. Qed.

(** C4. [down] answers false whenever [maxfails] is 0; for any other
    [maxfails] it answers true exactly when the failure counter is
    strictly greater than [maxfails], so a counter equal to [maxfails]
    still counts as up. *)
Theorem down_spec (v : host) (maxfails : Z) :
  (maxfails = 0 -> down v maxfails = false) /\
  (maxfails <> 0 -> (down v maxfails = true <-> fails v > maxfails)) /\
  (fails v = maxfails -> down v maxfails = false).
Proof.
  unfold down. repeat split.
  - intros ->. reflexivity.
  - destruct (Z.eqb_spec maxfails 0) as [|_]; [contradiction|].
    intro G. apply Z.gtb_lt in G. lia.
  - destruct (Z.eqb_spec maxfails 0) as [|_]; [contradiction|].
    intro G. apply Z.gtb_lt. lia.
  - intros E. destruct (maxfails =? 0); [reflexivity|].
    rewrite E. destruct (Z.gtb_spec maxfails maxfails); [lia|reflexivity].
Qed.

Lemma bind_run {A B} (c : M env A) (k : A -> M env B) (w w' : World env)
    (a : A) :
  c w = (Return a, w') -> bind c k w = k a w'.
Proof. intro H. unfold bind. now rewrite H. Qed.

Lemma Check_flagged (before after : M env unit) (h : ptr) (w : World env) :
  checking (hosts env w h) = true ->
  Check_during env before after h w = (Return tt, w).
Proof.
  intro Hc. unfold Check_during, bind, deref. now rewrite Hc.
Qed.

(** A check that finds the flag clear: the flag is set, then come
    [before], the exchange, [after], the counter and the release. *)
Lemma Check_during_run (before after : M env unit) (h : ptr) (w : World env) :
  checking (hosts env w h) = false ->
  let v := hosts env w h in
  Check_during env before after h w =
  bind before
    (fun _ =>
     bind (send env h)
       (fun err =>
        bind after
          (fun _ =>
           bind
             (match err with
              | Some e =>
                  bind (emit env (EvLog "[INFO] healtheck of %s failed with %s"
                                        [addr v] e))
                    (fun _ =>
                     bind (emit env (EvMetric HealthcheckFailureCount [addr v]))
                       (fun _ => atomic_AddUint32_fails env h 1))
              | None => atomic_StoreUint32_fails env h 0
              end)
             (fun _ => store_checking env h false))))
    (probing env h w).
Proof.
  intros Hc v.
  unfold Check_during. unfold bind at 1. unfold deref at 1.
  change (hosts env w h) with v.
  assert (Hc' : checking v = false) by exact Hc. rewrite Hc'.
  unfold bind at 1.
  change (store_checking env h true w) with (Return tt, probing env h w).
  reflexivity.
Qed.

Lemma Check_run (h : ptr) (w : World env) :
  checking (hosts env w h) = false ->
  let v := hosts env w h in
  let x := Exchange env (client v) hcping (addr v) (net env w) in
  host_Check env h w =
  bind
    (match
       match fst x with
       | Some e => if error_eqb e ErrTruncated then None else Some e
       | None => None
       end
     with
     | Some e =>
         bind (emit env (EvLog "[INFO] healtheck of %s failed with %s" [addr v] e))
           (fun _ => bind (emit env (EvMetric HealthcheckFailureCount [addr v]))
                       (fun _ => atomic_AddUint32_fails env h 1))
     | None => atomic_StoreUint32_fails env h 0
     end)
    (fun _ => store_checking env h false)
    (mkWorld env (hosts env (probing env h w)) (snd x)
       (trace env w ++ [EvExchange (client v) hcping (addr v)])).
Proof.
  intros Hc v x.
  unfold host_Check. rewrite (Check_during_run _ _ h w Hc). fold v.
  rewrite (bind_run (ret tt) _ _ _ tt eq_refl).
  rewrite (bind_run _ _ _ _ _ (send_run h (probing env h w))).
  assert (Hv : hosts env (probing env h w) h = set_checking v true).
  { unfold probing, store_checking, bind, deref, store. simpl.
    now rewrite Nat.eqb_refl. }
  rewrite Hv. reflexivity.
Qed.

(** C5. A probe that is not debounced and whose exchange reports no
    error, or reports the truncation error, stores 0 in the failure
    counter whatever it held, and leaves nothing but the exchange in the
    trace: no log line, no failure metric.  Any other error adds one to
    the counter (an unsigned 32-bit addition) and logs and counts one
    health-check failure. *)
Theorem Check_classifies_probe (h : ptr) (w : World env) :
  checking (hosts env w h) = false ->
  let v := hosts env w h in
  let ex := EvExchange (client v) hcping (addr v) in
  let r := fst (Exchange env (client v) hcping (addr v) (net env w)) in
  let w' := snd (host_Check env h w) in
  fst (host_Check env h w) = Return tt /\
  (r = None \/ r = Some ErrTruncated ->
     fails (hosts env w' h) = 0 /\
     trace env w' = trace env w ++ [ex]) /\
  (forall e, r = Some e -> e <> ErrTruncated ->
     fails (hosts env w' h) = uint32 (fails v + 1) /\
     (0 <= fails v < 2 ^ 32 - 1 -> fails (hosts env w' h) = fails v + 1) /\
     trace env w' =
       trace env w ++
       [ex; EvLog "[INFO] healtheck of %s failed with %s" [addr v] e;
        EvMetric HealthcheckFailureCount [addr v]]).
Proof.
  intros Hc v ex r w'. subst w'.
  rewrite (Check_run h w Hc). fold v. fold ex. 
  assert (Hv : hosts env (probing env h w) h = set_checking v true).
  { unfold probing, store_checking, bind, deref, store. simpl.
    now rewrite Nat.eqb_refl. }
  change (fst (Exchange env (client v) hcping (addr v) (net env w))) with r.
  destruct r as [e|] eqn:Er.
  - destruct (error_eqb e ErrTruncated) eqn:T.
    + apply error_eqb_eq in T. subst e.
      unfold bind, atomic_StoreUint32_fails, store_checking, bind, deref, store.
      simpl. rewrite !Nat.eqb_refl. simpl.
      split; [reflexivity|]. split; [intros _; split; reflexivity|].
      intros e He Hne. congruence.
    + unfold bind, emit, atomic_AddUint32_fails, store_checking, bind, deref,
        store. simpl. rewrite !Nat.eqb_refl. simpl.
      split; [reflexivity|]. split.
      * intros [H|H]; [discriminate|]. inversion H. subst e. discriminate.
      * intros e' He' Hne. inversion He'. subst e'.
        split; [reflexivity|]. split.
        -- intro R. apply uint32_small. lia.
        -- rewrite <- !app_assoc. reflexivity.
  - unfold bind, atomic_StoreUint32_fails, store_checking, bind, deref, store.
    simpl. rewrite !Nat.eqb_refl. simpl.
    split; [reflexivity|]. split; [intros _; split; reflexivity|].
    intros e He. discriminate.
Qed.

(** ** The zone check *)

Lemma range_ignored_spec (l : list string) (name : string) :
  range_ignored env l name = true <->
  forall ignore, In ignore l -> Matches env ignore name = false.
Proof.
  induction l as [|i l IH]; simpl.
  - split; [intros _ x []|reflexivity].
  - destruct (Matches env i name) eqn:E.
    + split; [discriminate|]. intro H.
      specialize (H i (or_introl eq_refl)). congruence.
    + rewrite IH. split.
      * intros H x [<-|Hx]; auto.
      * intros H x Hx. apply H. now right.
Qed.

Lemma isAllowedDomain_spec (f : Forward) (name : string) :
  isAllowedDomain env f name = true <->
  name = from f \/
  forall ignore, In ignore (ignored f) -> Matches env ignore name = false.
Proof.
  unfold isAllowedDomain. destruct (String.eqb_spec name (from f)) as [E|E].
  - split; auto.
  - rewrite range_ignored_spec. split; [auto|]. intros [H|H]; [contradiction|auto].
Qed.

(** C3. A request is forwarded exactly when its name matches the zone
    [from] and is allowed, where a name is allowed when it equals the zone
    itself or matches none of the [ignored] names; a name equal to the
    zone is allowed whatever [ignored] holds.  A request that is not
    forwarded makes a single outside call, to [plugin.NextOrFailure] with
    the next handler and the original arguments, and [ServeDNS] returns
    what that call returns. *)
Theorem match_then_forward_else_next (f : Forward) (ctx : Context)
    (w : ResponseWriter) (r : Msg) (world : World env) :
  let state := mkRequest w r in
  let name := state_Name env state in
  (Forward_match env f state = true <->
     Matches env (from f) name = true /\
     (name = from f \/
      forall ignore, In ignore (ignored f) -> Matches env ignore name = false)) /\
  (name = from f -> isAllowedDomain env f name = true) /\
  (Forward_match env f state = false ->
     let nx := NextOrFailure env "forward" (Next f) ctx w r (net env world) in
     ServeDNS env f ctx w r world =
     (Return (fst nx),
      mkWorld env (hosts env world) (snd nx)
        (trace env world ++ [EvNextOrFailure "forward" (Next f) w r]))).
Proof.
  intros state name. split; [|split].
  - unfold Forward_match. fold state. fold name.
    rewrite <- isAllowedDomain_spec.
    destruct (Matches env (from f) name), (isAllowedDomain env f name);
      simpl; intuition congruence.
  - intro E. apply isAllowedDomain_spec. now left.
  - intros Hm nx. unfold ServeDNS. fold state. rewrite Hm. simpl.
    unfold call, Forward_Name. fold nx. destruct nx as [v n]. reflexivity.
Qed.

(** ** The trial order *)

Lemma update_app {A} (done todo : list A) (t x : A) :
  update (List.length done) x (done ++ t :: todo) = Some (done ++ x :: todo).
Proof.
  induction done as [|d done IH]; simpl; [reflexivity|].
  now rewrite IH.
Qed.

Lemma index_in_range {A} (l : list A) (i : nat) (d : A) (w : World env) :
  (i < List.length l)%nat -> index env l i w = (Return (nth i l d), w).
Proof.
  intro H. unfold index.
  rewrite (nth_error_nth' l d H). reflexivity.
Qed.

Lemma range_perms_run (ps : list proxy_ptr) (perms : list nat) :
  (forall p, In p perms -> (p < List.length ps)%nat) ->
  forall (done todo : list proxy_ptr) (w : World env),
  (List.length perms <= List.length todo)%nat ->
  range_perms env ps perms (List.length done) (done ++ todo) w =
  (Return (done ++ map (fun p => nth p ps None) perms
                ++ skipn (List.length perms) todo), w).
Proof.
  induction perms as [|p perms IH]; intros Hin done todo w Hlen.
  - reflexivity.
  - destruct todo as [|t todo]; [simpl in Hlen; lia|].
    simpl range_perms. unfold bind.
    rewrite (index_in_range ps p None w) by (apply Hin; now left).
    rewrite update_app.
    replace (done ++ nth p ps None :: todo)
      with ((done ++ [nth p ps None]) ++ todo)
      by (now rewrite <- app_assoc).
    replace (S (List.length done)) with (List.length (done ++ [nth p ps None]))
      by (rewrite length_app; simpl; lia).
    rewrite IH.
    + simpl. now rewrite <- app_assoc.
    + intros q Hq. apply Hin. now right.
    + simpl in Hlen. lia.
Qed.

Lemma map_nth_seq {A} (l : list A) (d : A) :
  map (fun i => nth i l d) (seq 0 (List.length l)) = l.
Proof.
  induction l as [|a l IH]; simpl; [reflexivity|].
  f_equal. rewrite <- seq_shift, map_map. exact IH.
Qed.

Lemma shuffle_permutation (ps : list proxy_ptr) (perms : list nat) :
  Permutation perms (seq 0 (List.length ps)) ->
  forall w : World env,
  range_perms env ps perms 0 (repeat None (List.length ps)) w =
  (Return (map (fun p => nth p ps None) perms), w) /\
  Permutation (map (fun p => nth p ps None) perms) ps.
Proof.
  intros HP w. split.
  - pose proof (Permutation_length HP) as HL. rewrite length_seq in HL.
    rewrite (range_perms_run ps perms) with (done := []) (todo := repeat None (List.length ps)).
    + simpl. rewrite skipn_all2 by (rewrite repeat_length; lia).
      now rewrite app_nil_r.
    + intros p Hp. apply (Permutation_in _ HP) in Hp.
      apply in_seq in Hp. lia.
    + rewrite repeat_length. lia.
  - apply (Permutation_trans (Permutation_map _ HP)).
    rewrite map_nth_seq. apply Permutation_refl.
Qed.

Lemma Forward_list_run (f : Forward) (w : World env) :
  (forall n s, Permutation (fst (rand_Perm env n s)) (seq 0 n)) ->
  exists ps n evs,
    Forward_list env f w =
      (Return ps, mkWorld env (hosts env w) n (trace env w ++ evs)) /\
    Permutation ps (proxies f) /\
    existsb is_ClientWrite evs = false.
Proof.
  intro HP. unfold Forward_list.
  destruct (proxies f) as [|a [|b [|c l]]] eqn:E.
  - cbn [List.length]. unfold bind, call.
    specialize (HP 0%nat (net env w)).
    destruct (rand_Perm env 0 (net env w)) as [perms n]. simpl in HP.
    apply Permutation_sym, Permutation_nil in HP. subst perms.
    exists [], n, [EvRandPerm 0]. simpl. auto.
  - exists [a], (net env w), []. simpl. unfold ret.
    rewrite app_nil_r. destruct w; simpl. auto.
  - cbn [List.length]. unfold bind, call.
    destruct (rand_Int env (net env w)) as [r n].
    destruct (Z.rem r 2 =? 0).
    + exists [b; a], n, [EvRandInt]. simpl. repeat split; auto. apply perm_swap.
    + exists [a; b], n, [EvRandInt]. simpl. auto.
  - cbn [List.length].
    set (k := S (S (S (List.length l)))).
    unfold bind at 1. unfold call.
    specialize (HP k (net env w)).
    destruct (rand_Perm env k (net env w)) as [perms n]. simpl in HP.
    destruct (shuffle_permutation (a :: b :: c :: l) perms HP
                (mkWorld env (hosts env w) n (trace env w ++ [EvRandPerm k])))
      as [Hrun Hperm].
    cbn [List.length] in Hrun. fold k in Hrun.
    exists (map (fun p => nth p (a :: b :: c :: l) None) perms), n, [EvRandPerm k].
    split; [exact Hrun|auto].
Qed.

Lemma range_perms_world (ps : list proxy_ptr) (perms : list nat) :
  forall (i : nat) (rnd : list proxy_ptr) (w1 w2 : World env),
  snd (range_perms env ps perms i rnd w1) = w1 /\
  fst (range_perms env ps perms i rnd w1) =
  fst (range_perms env ps perms i rnd w2).
Proof.
  induction perms as [|p perms IH]; intros i rnd w1 w2; simpl.
  - auto.
  - unfold bind, index. destruct (nth_error ps p); simpl; [|auto].
    unfold ret. destruct (update i p0 rnd); simpl; [apply IH|auto].
Qed.

Lemma Forward_list_random_source (f : Forward) (w1 w2 : World env) :
  net env w1 = net env w2 ->
  fst (Forward_list env f w1) = fst (Forward_list env f w2).
Proof.
  intro H. unfold Forward_list.
  destruct (List.length (proxies f)) as [|[|[|k]]].
  - unfold bind, call. rewrite H.
    destruct (rand_Perm env 0 (net env w2)) as [perms n].
    apply range_perms_world.
  - reflexivity.
  - unfold bind, call. rewrite H.
    destruct (rand_Int env (net env w2)) as [r n].
    destruct (Z.rem r 2 =? 0); [|reflexivity].
    unfold index. destruct (nth_error (proxies f) 1); [|reflexivity].
    destruct (nth_error (proxies f) 0); reflexivity.
  - unfold bind, call. rewrite H.
    destruct (rand_Perm env (S (S (S k))) (net env w2)) as [perms n].
    apply range_perms_world.
Qed.

(** C2. Whenever [rand.Perm n] delivers a permutation of [0, n), the
    order [list] returns for a configuration of at least one upstream is
    a permutation of [f.proxies]: the same length, every upstream as
    often as it is configured, so without duplicates when the
    configuration has none.  The order is computed from [f.proxies] and
    the random source of this call alone: [list] leaves the hosts alone
    and a second run differs only through the random source. *)
Theorem list_is_permutation (f : Forward) (w : World env) :
  (forall n s, Permutation (fst (rand_Perm env n s)) (seq 0 n)) ->
  (1 <= List.length (proxies f))%nat ->
  exists ps w',
    Forward_list env f w = (Return ps, w') /\
    Permutation ps (proxies f) /\
    List.length ps = List.length (proxies f) /\
    (NoDup (proxies f) -> NoDup ps) /\
    hosts env w' = hosts env w /\
    (forall w2, net env w2 = net env w ->
       fst (Forward_list env f w2) = Return ps).
Proof.
  intros HP _.
  destruct (Forward_list_run f w HP) as (ps & n & evs & Hrun & Hperm & _).
  exists ps, (mkWorld env (hosts env w) n (trace env w ++ evs)).
  split; [exact Hrun|]. split; [exact Hperm|].
  split; [now apply Permutation_length|].
  split; [intro ND; apply (Permutation_NoDup (Permutation_sym Hperm) ND)|].
  split; [reflexivity|].
  intros w2 Hn. rewrite (Forward_list_random_source f w2 w Hn).
  now rewrite Hrun.
Qed.


Lemma trial_proto (f : Forward) (state : Request) (v : host) :
  match tlsConfig v with
  | Some _ => "tcp-tls"
  | None => if forceTCP f then "tcp" else state_Proto env state
  end = proto_of env f state v.
Proof. reflexivity. Qed.

Lemma trial_run (f : Forward) (state : Request) (p : proxy) (w : World env) :
  let v := hosts env w (proxy_host p) in
  let o := trial_outcome env f state p w in
  exists n,
    trial env f state p w =
    (Return (if is_Replied o then Some (0, None) else None),
     mkWorld env (hosts env w) n
       (trace env w ++ trial_events env f state p v o)).
Proof.
  intros v o. subst o. unfold trial, trial_outcome, proxy_Down.
  unfold bind at 1. unfold bind at 1. unfold deref at 1. unfold ret at 1.
  fold v. destruct (down v (maxfails f)).
  - exists (net env w). unfold ret. simpl. rewrite app_nil_r.
    destruct w; reflexivity.
  - unfold bind at 1. unfold deref at 1. fold v.
    replace (match tlsConfig v with
             | Some _ => "tcp-tls"
             | None => if forceTCP f then "tcp" else state_Proto env state
             end) with (proto_of env f state v) by reflexivity.
    set (proto := proto_of env f state v).
    unfold bind at 1. unfold call at 1. simpl net.
    destruct (Dial env p proto (net env w)) as [[conn|err] n1].
    + unfold trial_events, write_events, relay_events, udp_events, rcode_label.
      fold proto.
      unfold bind, emit, call, call_, ret. simpl.
      destruct (uint16 (state_Size env state) <? 512); simpl;
        destruct (WriteMsg env conn (Req state) n1) as [[e|] n2]; simpl;
        try (eexists; rewrite <- !app_assoc; simpl; reflexivity);
        destruct (ReadMsg env conn n2) as [[reply|e] n3]; simpl;
        eexists; rewrite <- !app_assoc; simpl; reflexivity.
    + unfold bind, emit, ret. simpl. exists n1.
      rewrite <- !app_assoc. reflexivity.
Qed.

Lemma range_ServeDNS_step (f : Forward) (state : Request) (p : proxy)
    (rest : list proxy_ptr) (w : World env) :
  range_ServeDNS env f state (Some p :: rest) w =
  match trial env f state p w with
  | (Return (Some v), w') => (Return v, w')
  | (Return None, w') => range_ServeDNS env f state rest w'
  | (Panic, w') => (Panic, w')
  end.
Proof.
  simpl. unfold bind. destruct (trial env f state p w) as [[[v|]|] w']; reflexivity.
Qed.

Lemma write_events_quiet (f : Forward) (state : Request) (p : proxy) (v : host)
    (conn : Conn) :
  existsb is_ClientWrite (write_events env f state p v conn) = false /\
  existsb is_Yield (write_events env f state p v conn) = false /\
  existsb (is_Close_of conn) (write_events env f state p v conn) = false /\
  filter is_Dial (write_events env f state p v conn) =
    [EvDial p (proto_of env f state v)].
Proof.
  unfold write_events, udp_events.
  destruct (uint16 (state_Size env state) <? 512); simpl; auto.
Qed.

Lemma failed_trial_quiet (f : Forward) (state : Request) (p : proxy) (v : host)
    (o : TrialOutcome) :
  is_Replied o = false ->
  existsb is_ClientWrite (trial_events env f state p v o) = false /\
  existsb is_Yield (trial_events env f state p v o) = false.
Proof.
  intro H. destruct o as [|e|c e|c e|c m]; try discriminate;
    unfold trial_events; [simpl; auto | simpl; auto | | ];
    rewrite !existsb_app;
    destruct (write_events_quiet f state p v c) as (-> & -> & _); auto.
Qed.

Lemma range_all_fail (f : Forward) (state : Request) (ps : list proxy) :
  forall w : World env,
  all_trials_fail env f state ps w ->
  exists n evs,
    range_ServeDNS env f state (map Some ps) w =
    (Return (RcodeServerFailure, Some errNoHealthy),
     mkWorld env (hosts env w) n (trace env w ++ evs)) /\
    existsb is_ClientWrite evs = false /\
    existsb is_Yield evs = false.
Proof.
  induction ps as [|p ps IH]; intros w H.
  - exists (net env w), []. simpl. unfold ret. rewrite app_nil_r.
    destruct w; auto.
  - destruct H as [Ho Hrest].
    simpl map. rewrite range_ServeDNS_step.
    destruct (trial_run f state p w) as [n Hrun].
    rewrite Hrun in Hrest |- *. rewrite Ho. simpl snd in Hrest.
    destruct (IH _ Hrest) as (n' & evs & Hr & Hq1 & Hq2).
    simpl in Hr. rewrite Hr.
    destruct (failed_trial_quiet f state p (hosts env w (proxy_host p)) _ Ho)
      as [Q1 Q2].
    exists n', (trial_events env f state p (hosts env w (proxy_host p))
                  (trial_outcome env f state p w) ++ evs).
    rewrite app_assoc, !existsb_app, Q1, Q2, Hq1, Hq2. auto.
Qed.

Lemma Forward_list_frame (f : Forward) (w : World env) :
  exists n evs,
    snd (Forward_list env f w) =
      mkWorld env (hosts env w) n (trace env w ++ evs) /\
    existsb is_ClientWrite evs = false.
Proof.
  unfold Forward_list.
  destruct (List.length (proxies f)) as [|[|[|k]]].
  - unfold bind, call.
    destruct (rand_Perm env 0 (net env w)) as [perms n].
    rewrite (proj1 (range_perms_world _ _ _ _ _ w)).
    exists n, [EvRandPerm 0]. auto.
  - exists (net env w), []. unfold ret. simpl. rewrite app_nil_r.
    destruct w; auto.
  - unfold bind, call.
    destruct (rand_Int env (net env w)) as [r n].
    exists n, [EvRandInt].
    destruct (Z.rem r 2 =? 0); [|auto].
    unfold index. destruct (nth_error (proxies f) 1); [|auto].
    destruct (nth_error (proxies f) 0); auto.
  - unfold bind, call.
    destruct (rand_Perm env (S (S (S k))) (net env w)) as [perms n].
    rewrite (proj1 (range_perms_world _ _ _ _ _ w)).
    exists n, [EvRandPerm (S (S (S k)))]. auto.
Qed.

(** C1, as the code has it.  A request that matches and whose trial
    order holds only skipped or failing trials makes [ServeDNS] return the
    server-failure code together with the error [errNoHealthy]; the run
    itself writes nothing to the client and hands no connection back, and
    it leaves every host as it was. *)
Theorem exhausted_returns_servfail (f : Forward) (ctx : Context)
    (w : ResponseWriter) (r : Msg) (world w1 : World env) (ps : list proxy) :
  Forward_match env f (mkRequest w r) = true ->
  Forward_list env f world = (Return (map Some ps), w1) ->
  all_trials_fail env f (mkRequest w r) ps w1 ->
  exists n evs,
    ServeDNS env f ctx w r world =
    (Return (RcodeServerFailure, Some errNoHealthy),
     mkWorld env (hosts env world) n (trace env world ++ evs)) /\
    existsb is_ClientWrite evs = false.
Proof.
  intros Hm Hl Hf.
  destruct (Forward_list_frame f world) as (n0 & evs0 & Hw1 & Q0).
  rewrite Hl in Hw1. simpl in Hw1. subst w1.
  destruct (range_all_fail f _ ps _ Hf) as (n & evs & Hr & Q & _).
  exists n, (evs0 ++ evs). split.
  - unfold ServeDNS. rewrite Hm. cbn [negb]. unfold bind.
    rewrite Hl, Hr. cbn [hosts trace]. now rewrite app_assoc.
  - now rewrite existsb_app, Q0, Q.
Qed.

(** C7. When the write or the read of a trial fails, the trial closes
    the connection it dialled, does not yield it, writes nothing to the
    client, has dialled exactly once, and the loop goes on with the
    upstreams that follow: the request ends as the rest of the order
    decides. *)
Theorem failed_exchange_discards_connection (f : Forward) (state : Request)
    (p : proxy) (rest : list proxy_ptr) (w : World env)
    (conn : Conn) (err : error) :
  trial_outcome env f state p w = WriteFailed conn err \/
  trial_outcome env f state p w = ReadFailed conn err ->
  exists n evs,
    range_ServeDNS env f state (Some p :: rest) w =
    range_ServeDNS env f state rest
      (mkWorld env (hosts env w) n (trace env w ++ evs)) /\
    evs = trial_events env f state p (hosts env w (proxy_host p))
            (trial_outcome env f state p w) /\
    (exists pre, evs = pre ++ [EvClose conn]) /\
    existsb is_Yield evs = false /\
    existsb is_ClientWrite evs = false /\
    filter is_Dial evs =
      [EvDial p (proto_of env f state (hosts env w (proxy_host p)))].
Proof.
  intro H. rewrite range_ServeDNS_step.
  destruct (trial_run f state p w) as [n Hrun]. rewrite Hrun.
  set (v := hosts env w (proxy_host p)).
  destruct (write_events_quiet f state p v conn) as (Q1 & Q2 & Q3 & Q4).
  exists n, (trial_events env f state p v (trial_outcome env f state p w)).
  destruct H as [-> | ->]; simpl is_Replied; cbv iota;
    (split; [reflexivity|]); (split; [reflexivity|]); unfold trial_events.
  - split.
    + eexists (_ ++ [_]). rewrite <- app_assoc. reflexivity.
    + rewrite !existsb_app, filter_app, Q1, Q2, Q4. simpl. auto.
  - split.
    + eexists (_ ++ [_; _; _]). rewrite <- app_assoc. reflexivity.
    + rewrite !existsb_app, filter_app, Q1, Q2, Q4. simpl. auto.
Qed.

(** C10. When the read of a trial succeeds, whatever response code the
    reply carries, the trial writes that reply to the client, yields the
    connection without closing it, counts the request, the response code
    and the duration under the upstream's address, and [ServeDNS]
    returns 0 with no error; the upstreams after it in the order are not
    touched. *)
Theorem reply_ends_the_request (f : Forward) (state : Request)
    (p : proxy) (rest : list proxy_ptr) (w : World env)
    (conn : Conn) (reply : Msg) :
  trial_outcome env f state p w = Replied conn reply ->
  let v := hosts env w (proxy_host p) in
  exists n,
    range_ServeDNS env f state (Some p :: rest) w =
    (Return (0, None),
     mkWorld env (hosts env w) n
       (trace env w ++
        write_events env f state p v conn ++
        [EvSetReadDeadline conn; EvReadMsg conn;
         EvClientWrite (W state) reply;
         EvYield p conn;
         EvMetric RequestCount [addr v];
         EvMetric RcodeCount [rcode_label env reply; addr v];
         EvMetric RequestDuration [addr v]])) /\
    existsb is_ClientWrite (write_events env f state p v conn) = false /\
    existsb (is_Close_of conn) (write_events env f state p v conn) = false.
Proof.
  intros H v. rewrite range_ServeDNS_step.
  destruct (trial_run f state p w) as [n Hrun]. rewrite Hrun, H.
  fold v. simpl is_Replied. cbv iota.
  destruct (write_events_quiet f state p v conn) as (Q1 & _ & Q3 & _).
  exists n. auto.
Qed.

(** ** The request path and the health state *)

Lemma range_ServeDNS_keeps_hosts (f : Forward) (state : Request)
    (ps : list proxy_ptr) :
  keeps_hosts env (range_ServeDNS env f state ps).
Proof.
  induction ps as [|[p|] ps IH]; intro w; [reflexivity| |reflexivity].
  rewrite range_ServeDNS_step.
  destruct (trial_run f state p w) as [n ->].
  destruct (is_Replied _); [reflexivity|].
  now rewrite IH.
Qed.

Lemma range_Forward_keeps_hosts (f : Forward) (state : Request)
    (ps : list proxy_ptr) :
  keeps_hosts env (range_Forward env f state ps).
Proof.
  induction ps as [|[p|] ps IH]; intro w; [reflexivity| |reflexivity].
  simpl. unfold bind at 1. unfold proxy_Down, bind at 1, deref at 1, ret at 1.
  destruct (down _ _); [apply IH|].
  unfold bind at 1. unfold call.
  destruct (connect env p state (forceTCP f) true (net env w)) as [[m|e] n].
  - reflexivity.
  - unfold bind at 1. unfold deref at 1. unfold bind, emit.
    now rewrite IH.
Qed.

Lemma Forward_list_keeps_hosts (f : Forward) :
  keeps_hosts env (Forward_list env f).
Proof.
  intro w. destruct (Forward_list_frame f w) as (n & evs & -> & _).
  reflexivity.
Qed.

Lemma Forward_Forward_keeps_hosts (f : Forward) (state : Request) :
  keeps_hosts env (Forward_Forward env f state).
Proof.
  intro w. unfold Forward_Forward, bind.
  pose proof (Forward_list_keeps_hosts f w) as H.
  destruct (Forward_list env f w) as [[ps|] w1]; simpl in H.
  - now rewrite range_Forward_keeps_hosts.
  - exact H.
Qed.

(** C8. No run of [ServeDNS], [Forward] or [Lookup], whatever errors
    its dials, writes and reads meet, changes any host: every failure
    counter (and every probe flag) is afterwards what it was before.  In
    these sources only [Check] stores into a counter. *)
Theorem request_path_keeps_counters (f : Forward) (ctx : Context)
    (w : ResponseWriter) (r : Msg) (state : Request) (name : string) (typ : Z)
    (world : World env) :
  hosts env (snd (ServeDNS env f ctx w r world)) = hosts env world /\
  hosts env (snd (Forward_Forward env f state world)) = hosts env world /\
  hosts env (snd (Lookup env f state name typ world)) = hosts env world /\
  forall h : ptr,
    fails (hosts env (snd (ServeDNS env f ctx w r world)) h) =
      fails (hosts env world h) /\
    fails (hosts env (snd (Forward_Forward env f state world)) h) =
      fails (hosts env world h).
Proof.
  assert (HS : hosts env (snd (ServeDNS env f ctx w r world)) = hosts env world).
  { unfold ServeDNS. destruct (negb _).
    - unfold call. destruct (NextOrFailure env _ _ _ _ _ _). reflexivity.
    - unfold bind.
      pose proof (Forward_list_keeps_hosts f world) as H.
      destruct (Forward_list env f world) as [[ps|] w1]; simpl in H.
      + now rewrite range_ServeDNS_keeps_hosts.
      + exact H. }
  pose proof (Forward_Forward_keeps_hosts f state world) as HF.
  split; [exact HS|]. split; [exact HF|].
  split; [apply Forward_Forward_keeps_hosts|].
  intro h. now rewrite HS, HF.
Qed.

(** ** Lookup *)

(** C9. [Lookup] runs [Forward] on a request that keeps the writer of
    the original one and whose message is a fresh query: its only
    question is the given name and type, and when the original request
    carries the protocol extension the new query carries it too, with the
    original's payload size and DO bit; without it, neither has one. *)
Theorem Lookup_forwards_synthetic_query (f : Forward) (state : Request)
    (name : string) (typ : Z) (world : World env) :
  exists req,
    Lookup env f state name typ world =
      Forward_Forward env f (mkRequest (W state) req) world /\
    Questions req = [mkQuestion name typ ClassINET] /\
    (forall o, IsEdns0 (Req state) = Some o ->
       exists o', IsEdns0 req = Some o' /\
                  UDPSize o' = UDPSize o /\ Do o' = Do o) /\
    (IsEdns0 (Req state) = None -> IsEdns0 req = None).
Proof.
  exists (SizeAndDo state (SetQuestion new_Msg name typ)).
  split; [reflexivity|]. unfold SizeAndDo.
  destruct (IsEdns0 (Req state)) as [o|]; simpl.
  - split; [reflexivity|]. split; [|discriminate].
    intros o0 E. inversion E. subst o0. eexists. split; [reflexivity|]. auto.
  - split; [reflexivity|]. split; [discriminate|reflexivity].
Qed.


End Facts.

(** * The statements at concrete inputs *)

Lemma down_spec_witness :
  down host_5 0 = false /\
  (down host_5 4 = true <-> 5 > 4) /\
  down host_5 5 = false.
Proof.
  split; [|split].
  - apply (proj1 (down_spec host_5 0)). reflexivity.
  - apply (proj1 (proj2 (down_spec host_5 4))). lia.
  - apply (proj2 (proj2 (down_spec host_5 5))). reflexivity.
Defined.

Lemma Check_classifies_probe_witness :
  fails (hosts env_flaky (snd (host_Check env_flaky 0%nat start_flaky)) 0%nat) = 0 /\
  fails (hosts env_flaky (snd (host_Check env_flaky 1%nat start_flaky)) 1%nat) = 0 /\
  fails (hosts env_flaky (snd (host_Check env_flaky 2%nat start_flaky)) 2%nat) = 6.
Proof.
  split; [|split].
  - apply (proj1 (proj2 (Check_classifies_probe env_flaky 0%nat start_flaky eq_refl))).
    left. reflexivity.
  - apply (proj1 (proj2 (Check_classifies_probe env_flaky 1%nat start_flaky eq_refl))).
    right. reflexivity.
  - apply (proj2 (proj2 (Check_classifies_probe env_flaky 2%nat start_flaky eq_refl))
             timed_out eq_refl).
    + discriminate.
    + simpl. lia.
Defined.


Lemma list_is_permutation_witness :
  exists ps w',
    Forward_list env_flaky (example_org 3%nat 2) start_flaky = (Return ps, w') /\
    Permutation ps (proxies (example_org 3%nat 2)).
Proof.
  destruct (list_is_permutation env_flaky (example_org 3%nat 2) start_flaky)
    as (ps & w' & Hrun & Hperm & _).
  - intros n s. simpl. apply Permutation_sym, Permutation_rev.
  - simpl. lia.
  - exists ps, w'. split; assumption.
Defined.

Lemma match_then_forward_else_next_witness :
  isAllowedDomain env_flaky (example_org 1%nat 2) "example.org." = true /\
  ServeDNS env_flaky (example_org 1%nat 2) 0%nat 7%nat
    (query "db.internal.example.org." TypeA) start_flaky =
  (Return (0, None),
   mkWorld env_flaky (hosts env_flaky start_flaky) tt
     [EvNextOrFailure "forward" 0%nat 7%nat
        (query "db.internal.example.org." TypeA)]).
Proof.
  split.
  - apply (proj1 (proj2 (match_then_forward_else_next env_flaky (example_org 1%nat 2)
                           0%nat 7%nat (query "example.org." TypeA) start_flaky))).
    reflexivity.
  - apply (proj2 (proj2 (match_then_forward_else_next env_flaky (example_org 1%nat 2)
                           0%nat 7%nat (query "db.internal.example.org." TypeA)
                           start_flaky))).
    reflexivity.
Defined.

Lemma exhausted_returns_servfail_witness :
  exists n evs,
    ServeDNS env_refused (example_org 1%nat 2) 0%nat 7%nat www
      (world0 env_refused tt (fun _ => 0) (fun _ => false)) =
    (Return (RcodeServerFailure, Some errNoHealthy),
     mkWorld env_refused (heap_with (fun _ => 0) (fun _ => false)) n ([] ++ evs)) /\
    existsb is_ClientWrite evs = false.
Proof.
  apply (exhausted_returns_servfail env_refused (example_org 1%nat 2) 0%nat 7%nat www
           (world0 env_refused tt (fun _ => 0) (fun _ => false))
           (world0 env_refused tt (fun _ => 0) (fun _ => false))
           [mkProxy 0%nat]).
  - reflexivity.
  - reflexivity.
  - simpl. split; [reflexivity|exact I].
Defined.

(** C1, as stated, fails: one upstream whose dial is refused; the
    request matches, its only trial fails, [ServeDNS] returns the
    server-failure code and [errNoHealthy], and yet no write to the client
    is among its calls. *)
Lemma exhausted_writes_nothing :
  let out := ServeDNS env_refused (example_org 1%nat 2) 0%nat 7%nat www
               (world0 env_refused tt (fun _ => 0) (fun _ => false)) in
  Forward_match env_refused (example_org 1%nat 2) (mkRequest 7%nat www) = true /\
  all_trials_fail env_refused (example_org 1%nat 2) (mkRequest 7%nat www)
    [mkProxy 0%nat] (world0 env_refused tt (fun _ => 0) (fun _ => false)) /\
  fst out = Return (RcodeServerFailure, Some errNoHealthy) /\
  ~ writes_servfail_to_client (trace env_refused (snd out)).
Proof.
  split; [reflexivity|]. split; [simpl; split; [reflexivity|exact I]|].
  split; [reflexivity|].
  intros (cw & m & Hin & _). simpl in Hin.
  destruct Hin as [H|[H|[]]]; discriminate.
Qed.

Lemma failed_exchange_discards_connection_witness :
  exists n evs,
    range_ServeDNS env_flaky (example_org 3%nat 9) (mkRequest 7%nat www)
      [Some (mkProxy 2%nat); Some (mkProxy 1%nat); Some (mkProxy 0%nat)] start_flaky =
    range_ServeDNS env_flaky (example_org 3%nat 9) (mkRequest 7%nat www)
      [Some (mkProxy 1%nat); Some (mkProxy 0%nat)]
      (mkWorld env_flaky (hosts env_flaky start_flaky) n
         (trace env_flaky start_flaky ++ evs)) /\
    (exists pre, evs = pre ++ [EvClose 2%nat]) /\
    existsb is_Yield evs = false /\
    existsb is_ClientWrite evs = false.
Proof.
  destruct (failed_exchange_discards_connection env_flaky (example_org 3%nat 9)
              (mkRequest 7%nat www) (mkProxy 2%nat)
              [Some (mkProxy 1%nat); Some (mkProxy 0%nat)] start_flaky 2%nat timed_out)
    as (n & evs & H1 & _ & H3 & H4 & H5 & _).
  - left. reflexivity.
  - exists n, evs. repeat split; assumption.
Defined.

Lemma reply_ends_the_request_witness :
  exists n,
    range_ServeDNS env_flaky (example_org 3%nat 9) (mkRequest 7%nat www)
      [Some (mkProxy 0%nat); Some (mkProxy 1%nat)] start_flaky =
    (Return (0, None),
     mkWorld env_flaky (hosts env_flaky start_flaky) n
       [EvDial (mkProxy 0%nat) "udp"; EvSetUDPSize 0%nat 512;
        EvSetWriteDeadline 0%nat; EvWriteMsg 0%nat www;
        EvSetReadDeadline 0%nat; EvReadMsg 0%nat;
        EvClientWrite 7%nat (reply_with RcodeServerFailure);
        EvYield (mkProxy 0%nat) 0%nat;
        EvMetric RequestCount ["10.0.0.1:53"];
        EvMetric RcodeCount ["SERVFAIL"; "10.0.0.1:53"];
        EvMetric RequestDuration ["10.0.0.1:53"]]).
Proof.
  destruct (reply_ends_the_request env_flaky (example_org 3%nat 9)
              (mkRequest 7%nat www) (mkProxy 0%nat) [Some (mkProxy 1%nat)] start_flaky
              0%nat (reply_with RcodeServerFailure) eq_refl)
    as (n & H & _).
  exists n. exact H.
Defined.

Lemma Lookup_forwards_synthetic_query_witness :
  exists req,
    Lookup env_flaky (example_org 1%nat 2) (mkRequest 7%nat www_4096)
      "aux.example.org." TypeA start_flaky =
    Forward_Forward env_flaky (example_org 1%nat 2) (mkRequest 7%nat req) start_flaky /\
    Questions req = [mkQuestion "aux.example.org." TypeA ClassINET] /\
    exists o, IsEdns0 req = Some o /\ UDPSize o = 4096 /\ Do o = true.
Proof.
  destruct (Lookup_forwards_synthetic_query env_flaky (example_org 1%nat 2)
              (mkRequest 7%nat www_4096) "aux.example.org." TypeA start_flaky)
    as (req & H1 & H2 & H3 & _).
  exists req. split; [exact H1|]. split; [exact H2|].
  exact (H3 (mkOPT 4096 true) eq_refl).
Defined.

(** ** Two runs of [ServeDNS] end to end *)

(** Three upstreams tried in the order 2, 1, 0: a failed write, a failed
    read, then a reply.  The client gets the reply of the third trial
    only, and the counters of all three are what they were. *)
Example failover_run :
  let out := ServeDNS env_flaky (example_org 3%nat 9) 0%nat 7%nat www start_flaky in
  fst out = Return (0, None) /\
  filter is_ClientWrite (trace env_flaky (snd out)) =
    [EvClientWrite 7%nat (reply_with RcodeServerFailure)] /\
  filter is_Yield (trace env_flaky (snd out)) = [EvYield (mkProxy 0%nat) 0%nat] /\
  map (fun k => fails (hosts env_flaky (snd out) k)) [0; 1; 2]%nat = [5; 5; 5].
Proof. repeat split. Qed.

(** One upstream with three failures and [maxfails] 2: it is skipped
    without a dial, and the request ends in the server-failure code. *)
Example all_down_run :
  ServeDNS env_flaky (example_org 1%nat 2) 0%nat 7%nat www
    (world0 env_flaky tt (fun _ => 3) (fun _ => false)) =
  (Return (RcodeServerFailure, Some errNoHealthy),
   world0 env_flaky tt (fun _ => 3) (fun _ => false)).
Proof. reflexivity. Qed.

(** * Further facts *)

Section Coverage.

Variable env : Env.

(** ** Health checks, one after the other *)

Lemma Check_host (h : ptr) (w : World env) :
  checking (hosts env w h) = false ->
  let v := hosts env w h in
  let r := fst (Exchange env (client v) hcping (addr v) (net env w)) in
  let failed := match r with
                | Some e => negb (error_eqb e ErrTruncated)
                | None => false
                end in
  fst (host_Check env h w) = Return tt /\
  forall q,
    hosts env (snd (host_Check env h w)) q =
    if Nat.eqb q h
    then mkHost (addr v) (client v) (tlsConfig v)
           (if failed then uint32 (fails v + 1) else 0) false
    else hosts env w q.
Proof.
  intros Hc v r failed. rewrite (Check_run env h w Hc). fold v.
  change (fst (Exchange env (client v) hcping (addr v) (net env w))) with r.
  subst failed.
  assert (Hp : forall q, hosts env (probing env h w) q =
                         if Nat.eqb q h then set_checking v true
                         else hosts env w q).
  { intro q. unfold probing, store_checking, bind, deref, store. reflexivity. }
  destruct r as [e|]; [destruct (error_eqb e ErrTruncated)|];
    unfold bind, emit, atomic_StoreUint32_fails, atomic_AddUint32_fails,
      store_checking, bind, deref, store; simpl;
    (split; [reflexivity|]); intro q; rewrite !Nat.eqb_refl;
    destruct (Nat.eqb q h) eqn:E; try reflexivity;
    rewrite Hp, E; reflexivity.
Qed.

(** A health check changes nothing but the failure counter and the probe
    flag of the host it is called on: every other host, and the address,
    client and TLS settings of this one, stay as they are. *)
Theorem Check_touches_one_host (h : ptr) (w : World env) :
  let w' := snd (host_Check env h w) in
  (forall q, q <> h -> hosts env w' q = hosts env w q) /\
  addr (hosts env w' h) = addr (hosts env w h) /\
  client (hosts env w' h) = client (hosts env w h) /\
  tlsConfig (hosts env w' h) = tlsConfig (hosts env w h).
Proof.
  intro w'. subst w'.
  destruct (checking (hosts env w h)) eqn:Hc.
  - unfold host_Check. rewrite (Check_flagged env _ _ h w Hc). simpl. auto.
  - destruct (Check_host h w Hc) as [_ H]. split.
    + intros q Hq. rewrite H. apply Nat.eqb_neq in Hq. now rewrite Hq.
    + rewrite H, Nat.eqb_refl. simpl. auto.
Qed.

(** After a probe that ran and met no error, or only truncation, the
    host is up for every (unsigned 32-bit) value of [maxfails], whatever
    its counter was. *)
Theorem probe_success_reinstates (h : ptr) (w : World env) (maxfails : Z) :
  0 <= maxfails < 2 ^ 32 ->
  checking (hosts env w h) = false ->
  let v := hosts env w h in
  let r := fst (Exchange env (client v) hcping (addr v) (net env w)) in
  r = None \/ r = Some ErrTruncated ->
  down (hosts env (snd (host_Check env h w)) h) maxfails = false.
Proof.
  intros Hm Hc v r Hr. destruct (Check_host h w Hc) as [_ H].
  rewrite H, Nat.eqb_refl. subst r v.
  assert (D : forall a c t, down (mkHost a c t 0 false) maxfails = false).
  { intros a c t. unfold down. simpl. destruct (maxfails =? 0) eqn:E; [reflexivity|].
    destruct (Z.gtb_spec 0 maxfails); [lia|reflexivity]. }
  destruct Hr as [E|E]; rewrite E; apply D.
Qed.

(** [k] probes in a row that all fail (with an error other than
    truncation) add [k] to the failure counter, as long as it stays below
    2^32, and leave the probe flag clear; so for [maxfails] other than 0
    the host is down afterwards exactly when the counter it reached
    exceeds [maxfails]. *)
Theorem failing_probes_add_up (k : nat) (h : ptr) :
  forall w : World env,
  let v := hosts env w h in
  checking v = false ->
  (forall n, exists e,
     fst (Exchange env (client v) hcping (addr v) n) = Some e /\
     e <> ErrTruncated) ->
  0 <= fails v ->
  fails v + Z.of_nat k < 2 ^ 32 ->
  let w' := snd (probes env k h w) in
  fst (probes env k h w) = Return tt /\
  fails (hosts env w' h) = fails v + Z.of_nat k /\
  checking (hosts env w' h) = false /\
  forall maxfails, maxfails <> 0 ->
    (down (hosts env w' h) maxfails = true <->
     fails v + Z.of_nat k > maxfails).
Proof.
  induction k as [|k IH]; intros w v Hc Hx H0 Hk w'; subst w'.
  - simpl. rewrite Z.add_0_r. repeat split; auto.
    + unfold down. fold v. apply Z.eqb_neq in H. rewrite H.
      intro G. apply Z.gtb_lt in G. lia.
    + unfold down. fold v. apply Z.eqb_neq in H. rewrite H.
      intro G. apply Z.gtb_lt. lia.
  - destruct (Check_host h w Hc) as [Hret Hh].
    specialize (Hh h). rewrite Nat.eqb_refl in Hh. fold v in Hh.
    destruct (Hx (net env w)) as (e & He & Hne). rewrite He in Hh.
    rewrite (error_eqb_neq e ErrTruncated Hne) in Hh. simpl in Hh.
    rewrite uint32_small in Hh by lia.
    assert (E : probes env (S k) h w =
                probes env k h (snd (host_Check env h w))).
    { simpl. unfold bind. destruct (host_Check env h w) as [o w1].
      simpl in Hret. now subst o. }
    rewrite E. specialize (IH (snd (host_Check env h w))). rewrite Hh in IH.
    cbn [addr client fails checking tlsConfig] in IH.
    replace (fails v + Z.of_nat (S k)) with (fails v + 1 + Z.of_nat k) by lia.
    apply IH; auto; lia.
Qed.

(** ** The zone check and the trial order, at their edges *)

Lemma Forward_match_spec (f : Forward) (state : Request) :
  Forward_match env f state = true <->
  Matches env (from f) (state_Name env state) = true /\
  isAllowedDomain env f (state_Name env state) = true.
Proof.
  unfold Forward_match.
  destruct (Matches env _ _), (isAllowedDomain env f _); simpl;
    intuition congruence.
Qed.

(** The zone check reads [ignored] as a set: two configurations with the
    same zone whose ignored names are the same up to order and repetition
    forward the same requests, and ignoring fewer names never stops a
    request from being forwarded. *)
Theorem ignored_names_form_a_set (f f' : Forward) (state : Request) :
  from f = from f' ->
  ((forall x, In x (ignored f') -> In x (ignored f)) ->
   Forward_match env f state = true -> Forward_match env f' state = true) /\
  ((forall x, In x (ignored f) <-> In x (ignored f')) ->
   Forward_match env f state = Forward_match env f' state).
Proof.
  intro Hz.
  assert (Mono : forall g g' : Forward, from g = from g' ->
            (forall x, In x (ignored g') -> In x (ignored g)) ->
            Forward_match env g state = true ->
            Forward_match env g' state = true).
  { intros g g' E Hsub Hm. apply Forward_match_spec in Hm.
    destruct Hm as [Hin Hal]. apply Forward_match_spec.
    rewrite <- E. split; [exact Hin|].
    apply isAllowedDomain_spec. apply isAllowedDomain_spec in Hal.
    rewrite <- E. destruct Hal as [Hal|Hal]; [now left|right].
    intros x Hx. apply Hal, Hsub, Hx. }
  split.
  - apply Mono, Hz.
  - intro Heq.
    destruct (Forward_match env f state) eqn:A.
    + symmetry. apply (Mono f f' Hz); [intros x Hx; now apply Heq|exact A].
    + destruct (Forward_match env f' state) eqn:B; [|reflexivity].
      rewrite <- A. apply (Mono f' f (eq_sym Hz)); [intros x Hx; now apply Heq|exact B].
Qed.

Lemma rem2_even (r : Z) : (Z.rem r 2 =? 0) = Z.even r.
Proof.
  destruct (Z.eqb_spec (Z.rem r 2) 0) as [E|E].
  - symmetry. apply Z.even_spec. apply Z.rem_divide in E; [|lia].
    destruct E as [z ->]. exists z. lia.
  - symmetry. apply not_true_is_false. intro H. apply E.
    apply Z.even_spec in H. destruct H as [m ->].
    apply Z.rem_divide; [lia|]. exists m. lia.
Qed.

(** With a single upstream [list] returns it without drawing a random
    number: the state is untouched.  With two upstreams it draws one
    number with [rand.Int] and returns them swapped when the number is
    even, in the configured order when it is odd. *)
Theorem list_of_one_or_two (f : Forward) (w : World env) :
  (forall a, proxies f = [a] -> Forward_list env f w = (Return [a], w)) /\
  (forall a b, proxies f = [a; b] ->
     Forward_list env f w =
     (Return (if Z.even (fst (rand_Int env (net env w))) then [b; a] else [a; b]),
      mkWorld env (hosts env w) (snd (rand_Int env (net env w)))
        (trace env w ++ [EvRandInt]))).
Proof.
  split.
  - intros a E. unfold Forward_list. rewrite E. reflexivity.
  - intros a b E. unfold Forward_list. rewrite E. cbn [List.length].
    unfold bind, call. destruct (rand_Int env (net env w)) as [r n].
    rewrite rem2_even. cbn [fst snd]. destruct (Z.even r); reflexivity.
Qed.

(** ** Whole runs of [ServeDNS] *)

Lemma range_ServeDNS_run (f : Forward) (state : Request) (ps : list proxy) :
  forall w : World env,
  exists n,
    range_ServeDNS env f state (map Some ps) w =
    (Return (if replied (outcomes env f state ps w) then (0, None)
             else (RcodeServerFailure, Some errNoHealthy)),
     mkWorld env (hosts env w) n
       (trace env w ++
        events_of env f state (hosts env w) (outcomes env f state ps w))).
Proof.
  induction ps as [|p ps IH]; intro w.
  - exists (net env w). simpl. unfold ret. rewrite app_nil_r.
    destruct w; reflexivity.
  - simpl map. rewrite range_ServeDNS_step.
    destruct (trial_run env f state p w) as [n1 Hrun].
    simpl outcomes. rewrite Hrun.
    destruct (is_Replied (trial_outcome env f state p w)) eqn:R.
    + exists n1. unfold replied, events_of. simpl. rewrite R.
      now rewrite app_nil_r.
    + cbn [snd].
      destruct (IH (mkWorld env (hosts env w) n1
                      (trace env w ++
                       trial_events env f state p (hosts env w (proxy_host p))
                         (trial_outcome env f state p w)))) as [n Hr].
      rewrite Hr. exists n. cbn [hosts trace].
      unfold replied, events_of. simpl. rewrite R. simpl.
      now rewrite <- app_assoc.
Qed.

Lemma outcomes_in (f : Forward) (state : Request) (ps : list proxy) :
  forall (w : World env) p o,
  In (p, o) (outcomes env f state ps w) ->
  In p ps /\
  exists w', hosts env w' = hosts env w /\ o = trial_outcome env f state p w'.
Proof.
  induction ps as [|q ps IH]; intros w p o H; [destruct H|].
  simpl in H. destruct H as [E|H].
  - inversion E. subst. split; [now left|]. exists w. auto.
  - destruct (is_Replied _); [destruct H|].
    apply IH in H. destruct H as [Hin (w' & Hh & Ho)].
    split; [now right|]. exists w'. split; [|exact Ho].
    rewrite Hh. destruct (trial_run env f state q w) as [n ->]. reflexivity.
Qed.

Lemma Forward_list_rand (f : Forward) (w : World env) :
  exists n evs,
    snd (Forward_list env f w) =
      mkWorld env (hosts env w) n (trace env w ++ evs) /\
    forallb is_Rand evs = true.
Proof.
  unfold Forward_list.
  destruct (List.length (proxies f)) as [|[|[|k]]].
  - unfold bind, call.
    destruct (rand_Perm env 0 (net env w)) as [perms n].
    rewrite (proj1 (range_perms_world env _ _ _ _ _ w)).
    exists n, [EvRandPerm 0]. auto.
  - exists (net env w), []. unfold ret. simpl. rewrite app_nil_r.
    destruct w; auto.
  - unfold bind, call.
    destruct (rand_Int env (net env w)) as [r n].
    exists n, [EvRandInt].
    destruct (Z.rem r 2 =? 0); [|auto].
    unfold index. destruct (nth_error (proxies f) 1); [|auto].
    destruct (nth_error (proxies f) 0); auto.
  - unfold bind, call.
    destruct (rand_Perm env (S (S (S k))) (net env w)) as [perms n].
    rewrite (proj1 (range_perms_world env _ _ _ _ _ w)).
    exists n, [EvRandPerm (S (S (S k)))]. auto.
Qed.

(** A matching request whose order is [ps]: [ServeDNS] returns by the
    outcomes of its trials, and its calls are the random draws of [list]
    followed by the calls of those trials. *)
Lemma ServeDNS_run (f : Forward) (ctx : Context) (w : ResponseWriter)
    (r : Msg) (world w1 : World env) (ps : list proxy) :
  Forward_match env f (mkRequest w r) = true ->
  Forward_list env f world = (Return (map Some ps), w1) ->
  let os := outcomes env f (mkRequest w r) ps w1 in
  hosts env w1 = hosts env world /\
  exists n evs0,
    forallb is_Rand evs0 = true /\
    ServeDNS env f ctx w r world =
    (Return (if replied os then (0, None)
             else (RcodeServerFailure, Some errNoHealthy)),
     mkWorld env (hosts env world) n
       (trace env world ++ evs0 ++
        events_of env f (mkRequest w r) (hosts env world) os)).
Proof.
  intros Hm Hl os.
  destruct (Forward_list_rand f world) as (n0 & evs0 & Hw1 & Q0).
  rewrite Hl in Hw1. simpl in Hw1.
  assert (Hh : hosts env w1 = hosts env world) by now subst w1.
  split; [exact Hh|].
  destruct (range_ServeDNS_run f (mkRequest w r) ps w1) as [n Hr].
  exists n, evs0. split; [exact Q0|].
  unfold ServeDNS. rewrite Hm. cbn [negb]. unfold bind. rewrite Hl, Hr.
  fold os. rewrite Hh. subst w1. cbn [trace]. now rewrite app_assoc.
Qed.

Lemma count_app (P : Event -> bool) (a b : list Event) :
  count P (a ++ b) = (count P a + count P b)%nat.
Proof. unfold count. now rewrite filter_app, length_app. Qed.

Lemma count_rand (P : Event -> bool) (evs : list Event) :
  (forall e, is_Rand e = true -> P e = false) ->
  forallb is_Rand evs = true -> count P evs = 0%nat.
Proof.
  intros HP. induction evs as [|e evs IH]; intro H; [reflexivity|].
  simpl in H. apply andb_prop in H. destruct H as [He H].
  unfold count. simpl. rewrite (HP e He). now apply IH.
Qed.

Lemma write_events_counts (f : Forward) (state : Request) (p : proxy)
    (v : host) (conn : Conn) :
  count is_ClientWrite (write_events env f state p v conn) = 0%nat /\
  count is_Yield (write_events env f state p v conn) = 0%nat /\
  count is_Close (write_events env f state p v conn) = 0%nat /\
  count is_WriteMsg (write_events env f state p v conn) = 1%nat.
Proof.
  unfold write_events, udp_events, count.
  destruct (uint16 (state_Size env state) <? 512); simpl; auto.
Qed.

Lemma trial_counts (f : Forward) (state : Request) (p : proxy) (v : host)
    (o : TrialOutcome) :
  let evs := trial_events env f state p v o in
  count is_ClientWrite evs = (if is_Replied o then 1 else 0)%nat /\
  count is_Yield evs = (if is_Replied o then 1 else 0)%nat /\
  count is_WriteMsg evs = (count is_Close evs + count is_Yield evs)%nat.
Proof.
  intro evs. subst evs.
  destruct o as [|e|c e|c e|c m]; unfold trial_events, relay_events;
    [unfold count; simpl; auto | unfold count; simpl; auto | | | ];
    rewrite !count_app;
    destruct (write_events_counts f state p v c) as (-> & -> & -> & ->);
    unfold count; simpl; auto.
Qed.

Lemma outcomes_counts (f : Forward) (state : Request) (hs : ptr -> host)
    (ps : list proxy) :
  forall w : World env,
  let evs := events_of env f state hs (outcomes env f state ps w) in
  let k := (if replied (outcomes env f state ps w) then 1 else 0)%nat in
  count is_ClientWrite evs = k /\
  count is_Yield evs = k /\
  count is_WriteMsg evs = (count is_Close evs + count is_Yield evs)%nat.
Proof.
  induction ps as [|p ps IH]; intro w; [simpl; auto|].
  simpl outcomes.
  destruct (trial_counts f state p (hs (proxy_host p))
              (trial_outcome env f state p w)) as (A & B & C).
  destruct (is_Replied (trial_outcome env f state p w)) eqn:R.
  - unfold events_of, replied. simpl. rewrite R, app_nil_r. simpl.
    rewrite A, B, C. auto.
  - specialize (IH (snd (trial env f state p w))).
    destruct IH as (A' & B' & C').
    unfold events_of, replied in *. simpl. rewrite R. simpl.
    rewrite !count_app, A, B, C, A', B', C'. repeat split; lia.
Qed.

(** [ServeDNS] answers the client at most once.  A matching request
    returns either 0 without error, after exactly one write to the client
    and exactly one connection yielded, or the server-failure code with
    [errNoHealthy], after no write to the client and no connection
    yielded. *)
Theorem ServeDNS_answers_once (f : Forward) (ctx : Context)
    (w : ResponseWriter) (r : Msg) (world w1 : World env) (ps : list proxy) :
  Forward_match env f (mkRequest w r) = true ->
  Forward_list env f world = (Return (map Some ps), w1) ->
  exists n evs,
    snd (ServeDNS env f ctx w r world) =
      mkWorld env (hosts env world) n (trace env world ++ evs) /\
    ((fst (ServeDNS env f ctx w r world) = Return (0, None) /\
      count is_ClientWrite evs = 1%nat /\ count is_Yield evs = 1%nat) \/
     (fst (ServeDNS env f ctx w r world) =
        Return (RcodeServerFailure, Some errNoHealthy) /\
      count is_ClientWrite evs = 0%nat /\ count is_Yield evs = 0%nat)).
Proof.
  intros Hm Hl.
  destruct (ServeDNS_run f ctx w r world w1 ps Hm Hl)
    as (_ & n & evs0 & Q0 & Hrun).
  rewrite Hrun. cbn [fst snd].
  eexists n, _. split; [reflexivity|].
  destruct (outcomes_counts f (mkRequest w r) (hosts env world) ps w1)
    as (A & B & _).
  rewrite !count_app, A, B.
  rewrite (count_rand is_ClientWrite evs0), (count_rand is_Yield evs0); auto;
    try (intros [] E; simpl in E; try discriminate; reflexivity).
  destruct (replied _); [left|right]; auto.
Qed.

(** [ServeDNS] keeps no connection: over a whole run, the connections
    it wrote the request on are as many as the connections it closed plus
    the connections it yielded. *)
Theorem ServeDNS_releases_every_connection (f : Forward) (ctx : Context)
    (w : ResponseWriter) (r : Msg) (world w1 : World env) (ps : list proxy) :
  Forward_match env f (mkRequest w r) = true ->
  Forward_list env f world = (Return (map Some ps), w1) ->
  exists n evs,
    snd (ServeDNS env f ctx w r world) =
      mkWorld env (hosts env world) n (trace env world ++ evs) /\
    count is_WriteMsg evs = (count is_Close evs + count is_Yield evs)%nat.
Proof.
  intros Hm Hl.
  destruct (ServeDNS_run f ctx w r world w1 ps Hm Hl)
    as (_ & n & evs0 & Q0 & Hrun).
  rewrite Hrun. cbn [snd].
  eexists n, _. split; [reflexivity|].
  destruct (outcomes_counts f (mkRequest w r) (hosts env world) ps w1)
    as (_ & _ & C).
  rewrite !count_app, C.
  rewrite (count_rand is_WriteMsg evs0), (count_rand is_Close evs0),
    (count_rand is_Yield evs0); auto;
    try (intros [] E; simpl in E; try discriminate; reflexivity).
Qed.

Lemma trial_events_in (f : Forward) (state : Request) (p : proxy) (v : host)
    (o : TrialOutcome) (e : Event) :
  In e (trial_events env f state p v o) ->
  match e with
  | EvWriteMsg _ m => m = Req state
  | EvClientWrite cw _ => cw = W state
  | EvDial p' proto =>
      p' = p /\ proto = proto_of env f state v /\ is_Skipped o = false
  | EvNextOrFailure _ _ _ _ | EvConnect _ _ _ _ | EvExchange _ _ _
  | EvRandInt | EvRandPerm _ => False
  | _ => True
  end.
Proof.
  destruct o as [|err|c err|c err|c m];
    unfold trial_events, write_events, relay_events, udp_events;
    destruct (uint16 (state_Size env state) <? 512); simpl;
    intro H; repeat (destruct H as [H|H]; [subst e; simpl; auto|]);
    try destruct H; auto.
Qed.

Lemma rand_events_in (evs : list Event) (e : Event) :
  forallb is_Rand evs = true -> In e evs -> is_Rand e = true.
Proof. intros H Hin. exact (proj1 (forallb_forall _ _) H e Hin). Qed.

Lemma events_of_in (f : Forward) (state : Request) (hs : ptr -> host)
    (os : list (proxy * TrialOutcome)) (e : Event) :
  In e (events_of env f state hs os) ->
  exists p o, In (p, o) os /\
              In e (trial_events env f state p (hs (proxy_host p)) o).
Proof.
  unfold events_of. intro H. apply in_flat_map in H.
  destruct H as ([p o] & Hin & He). exists p, o. auto.
Qed.

(** [ServeDNS] passes the request on as it is: every message it writes
    on an upstream connection is the inbound message [r], every write to
    a client goes to the writer [w] it was called with, and a request
    that matches is never handed to the next plugin. *)
Theorem ServeDNS_forwards_as_is (f : Forward) (ctx : Context)
    (w : ResponseWriter) (r : Msg) (world w1 : World env) (ps : list proxy) :
  Forward_match env f (mkRequest w r) = true ->
  Forward_list env f world = (Return (map Some ps), w1) ->
  exists n evs,
    snd (ServeDNS env f ctx w r world) =
      mkWorld env (hosts env world) n (trace env world ++ evs) /\
    (forall c m, In (EvWriteMsg c m) evs -> m = r) /\
    (forall cw m, In (EvClientWrite cw m) evs -> cw = w) /\
    (forall name next cw m, ~ In (EvNextOrFailure name next cw m) evs).
Proof.
  intros Hm Hl.
  destruct (ServeDNS_run f ctx w r world w1 ps Hm Hl)
    as (_ & n & evs0 & Q0 & Hrun).
  rewrite Hrun. cbn [snd]. eexists n, _. split; [reflexivity|].
  assert (K : forall e,
            In e (evs0 ++ events_of env f (mkRequest w r) (hosts env world)
                            (outcomes env f (mkRequest w r) ps w1)) ->
            is_Rand e = true \/
            exists p o,
              In e (trial_events env f (mkRequest w r) p
                      (hosts env world (proxy_host p)) o)).
  { intros e H. apply in_app_or in H. destruct H as [H|H].
    - left. eapply rand_events_in; eauto.
    - right. apply events_of_in in H. destruct H as (p & o & _ & H). eauto. }
  repeat split.
  - intros c m H. destruct (K _ H) as [E|(p & o & E)]; [discriminate|].
    exact (trial_events_in _ _ _ _ _ _ E).
  - intros cw m H. destruct (K _ H) as [E|(p & o & E)]; [discriminate|].
    exact (trial_events_in _ _ _ _ _ _ E).
  - intros name next cw m H. destruct (K _ H) as [E|(p & o & E)]; [discriminate|].
    exact (trial_events_in _ _ _ _ _ _ E).
Qed.

(** [ServeDNS] dials only upstreams of its order that are up, and with
    the protocol the configuration dictates: ["tcp-tls"] when the host has
    a TLS configuration, otherwise ["tcp"] when [forceTCP] is set,
    otherwise the protocol of the request. *)
Theorem ServeDNS_dials_only_up (f : Forward) (ctx : Context)
    (w : ResponseWriter) (r : Msg) (world w1 : World env) (ps : list proxy) :
  Forward_match env f (mkRequest w r) = true ->
  Forward_list env f world = (Return (map Some ps), w1) ->
  exists n evs,
    snd (ServeDNS env f ctx w r world) =
      mkWorld env (hosts env world) n (trace env world ++ evs) /\
    forall p proto, In (EvDial p proto) evs ->
      let v := hosts env world (proxy_host p) in
      In p ps /\
      down v (maxfails f) = false /\
      (tlsConfig v <> None -> proto = "tcp-tls") /\
      (tlsConfig v = None -> forceTCP f = true -> proto = "tcp") /\
      (tlsConfig v = None -> forceTCP f = false ->
         proto = state_Proto env (mkRequest w r)).
Proof.
  intros Hm Hl.
  destruct (ServeDNS_run f ctx w r world w1 ps Hm Hl)
    as (Hh & n & evs0 & Q0 & Hrun).
  rewrite Hrun. cbn [snd]. eexists n, _. split; [reflexivity|].
  intros p proto H. set (v := hosts env world (proxy_host p)).
  apply in_app_or in H. destruct H as [H|H].
  { apply (rand_events_in _ _ Q0) in H. discriminate. }
  apply events_of_in in H. destruct H as (q & o & Hin & He).
  apply trial_events_in in He. destruct He as (-> & -> & Hs).
  apply outcomes_in in Hin. destruct Hin as (Hp & w' & Hw' & ->).
  split; [exact Hp|].
  unfold trial_outcome in Hs. rewrite Hw', Hh in Hs. fold v in Hs.
  split.
  - destruct (down v (maxfails f)); [discriminate|reflexivity].
  - unfold proto_of. fold v.
    destruct (tlsConfig v); repeat split; try congruence;
      intros _ E; rewrite E; reflexivity.
Qed.

Lemma trial_dials (f : Forward) (state : Request) (p : proxy) (v : host)
    (o : TrialOutcome) :
  filter is_Dial (trial_events env f state p v o) =
  if is_Skipped o then [] else [EvDial p (proto_of env f state v)].
Proof.
  destruct o as [|e|c e|c e|c m]; unfold trial_events; try reflexivity;
    rewrite !filter_app;
    rewrite (proj2 (proj2 (proj2 (write_events_quiet env f state p v c))));
    reflexivity.
Qed.

Lemma trial_outcome_skipped (f : Forward) (state : Request) (p : proxy)
    (w : World env) :
  is_Skipped (trial_outcome env f state p w) =
  down (hosts env w (proxy_host p)) (maxfails f).
Proof.
  unfold trial_outcome. destruct (down _ _); [reflexivity|].
  destruct (Dial env _ _ _) as [[c|e] n1]; [|reflexivity].
  destruct (WriteMsg env _ _ _) as [[e|] n2]; [reflexivity|].
  destruct (ReadMsg env _ _) as [[m|e] n3]; reflexivity.
Qed.

Lemma exhausted_dials (f : Forward) (state : Request) (hs : ptr -> host)
    (ps : list proxy) :
  forall w : World env,
  hosts env w = hs ->
  replied (outcomes env f state ps w) = false ->
  filter is_Dial (events_of env f state hs (outcomes env f state ps w)) =
  map (fun p => EvDial p (proto_of env f state (hs (proxy_host p))))
      (filter (fun p => negb (down (hs (proxy_host p)) (maxfails f))) ps).
Proof.
  induction ps as [|p ps IH]; intros w Hh Hr; [reflexivity|].
  simpl outcomes in *. unfold replied in Hr. simpl in Hr.
  apply orb_false_elim in Hr. destruct Hr as [R Hr]. rewrite R in *.
  unfold events_of. cbn [flat_map fst snd]. rewrite filter_app, trial_dials.
  rewrite trial_outcome_skipped, Hh. cbn [filter].
  fold (events_of env f state hs (outcomes env f state ps (snd (trial env f state p w)))).
  rewrite IH; [|destruct (trial_run env f state p w) as [n ->]; exact Hh|exact Hr].
  destruct (down (hs (proxy_host p)) (maxfails f)); reflexivity.
Qed.

(** When [ServeDNS] gives up on a matching request it has dialled every
    upstream of its order that is up exactly once, in trial order, and no
    other; with [maxfails] 0 that is every upstream of the order. *)
Theorem exhausted_after_dialling_each_up_once (f : Forward) (ctx : Context)
    (w : ResponseWriter) (r : Msg) (world w1 : World env) (ps : list proxy) :
  Forward_match env f (mkRequest w r) = true ->
  Forward_list env f world = (Return (map Some ps), w1) ->
  fst (ServeDNS env f ctx w r world) =
    Return (RcodeServerFailure, Some errNoHealthy) ->
  let dial p :=
    EvDial p (proto_of env f (mkRequest w r) (hosts env world (proxy_host p))) in
  exists n evs,
    snd (ServeDNS env f ctx w r world) =
      mkWorld env (hosts env world) n (trace env world ++ evs) /\
    filter is_Dial evs =
      map dial
        (filter (fun p => negb (down (hosts env world (proxy_host p))
                                     (maxfails f))) ps) /\
    (maxfails f = 0 -> filter is_Dial evs = map dial ps).
Proof.
  intros Hm Hl Hres dial.
  destruct (ServeDNS_run f ctx w r world w1 ps Hm Hl)
    as (Hh & n & evs0 & Q0 & Hrun).
  rewrite Hrun in Hres |- *. cbn [fst snd] in *.
  eexists n, _. split; [reflexivity|].
  assert (R : replied (outcomes env f (mkRequest w r) ps w1) = false).
  { destruct (replied _); [discriminate|reflexivity]. }
  assert (D : filter is_Dial evs0 = []).
  { clear - Q0. induction evs0 as [|e l IH]; [reflexivity|].
    simpl in Q0. apply andb_prop in Q0. destruct Q0 as [He Hl].
    simpl. destruct e; try discriminate; simpl; auto. }
  rewrite filter_app, D, (exhausted_dials f _ (hosts env world) ps w1 Hh R).
  split; [reflexivity|].
  intro Z0. simpl. f_equal.
  assert (Up : forall v, down v (maxfails f) = false)
    by (intro v; unfold down; now rewrite Z0).
  clear - Up. induction ps as [|p ps IH]; [reflexivity|].
  simpl. rewrite Up. simpl. now f_equal.
Qed.

Lemma UDPSize_after_app (conn : Conn) (a b : list Event) :
  UDPSize_after conn (a ++ b) =
  match UDPSize_after conn b with
  | Some s => Some s
  | None => UDPSize_after conn a
  end.
Proof.
  induction a as [|e a IH]; simpl.
  - destruct (UDPSize_after conn b); reflexivity.
  - rewrite IH. destruct (UDPSize_after conn b); reflexivity.
Qed.

(** A trial that got a connection leaves its [UDPSize] at the size the
    request asks for, cut to 16 bits, and at 512 when that is less: the
    buffer size is never below 512 and never above 65535. *)
Theorem UDPSize_is_clamped (f : Forward) (state : Request) (p : proxy)
    (w : World env) (conn : Conn) :
  conn_of (trial_outcome env f state p w) = Some conn ->
  let size := Z.max 512 (state_Size env state mod 2 ^ 16) in
  exists n evs,
    snd (trial env f state p w) =
      mkWorld env (hosts env w) n (trace env w ++ evs) /\
    UDPSize_after conn evs = Some size /\
    512 <= size < 2 ^ 16.
Proof.
  intros Hc size.
  destruct (trial_run env f state p w) as [n Hrun]. rewrite Hrun. cbn [snd].
  eexists n, _. split; [reflexivity|].
  assert (Hsz : UDPSize_after conn
                  (write_events env f state p (hosts env w (proxy_host p)) conn)
                = Some size).
  { unfold write_events, udp_events, uint16. subst size.
    destruct (Z.ltb_spec (state_Size env state mod 2 ^ 16) 512) as [L|L];
      simpl; rewrite Nat.eqb_refl; f_equal; lia. }
  split.
  - destruct (trial_outcome env f state p w) as [|e|c e|c e|c m];
      try discriminate; inversion Hc; subst c; unfold trial_events;
      rewrite !UDPSize_after_app; simpl; exact Hsz.
  - subst size.
    pose proof (Z.mod_pos_bound (state_Size env state) (2 ^ 16)). lia.
Qed.

(** ** Whole runs of [Forward] *)

Lemma range_Forward_run (f : Forward) (state : Request) (ps : list proxy) :
  forall w : World env,
  exists res n evs,
    range_Forward env f state (map Some ps) w =
      (Return res, mkWorld env (hosts env w) n (trace env w ++ evs)) /\
    ((exists m pre p, res = (Some m, None) /\
                      evs = pre ++ [EvConnect p state (forceTCP f) true]) \/
     res = (None, Some errNoHealthy)) /\
    forall e, In e evs ->
      match e with
      | EvConnect p st ft mt =>
          st = state /\ ft = forceTCP f /\ mt = true /\ In p ps /\
          down (hosts env w (proxy_host p)) (maxfails f) = false
      | EvLog _ _ _ => True
      | _ => False
      end.
Proof.
  induction ps as [|p ps IH]; intro w.
  - exists (None, Some errNoHealthy), (net env w), []. simpl. unfold ret.
    rewrite app_nil_r. destruct w. repeat split; auto. intros e [].
  - simpl. unfold bind at 1. unfold proxy_Down, bind at 1, deref at 1, ret at 1.
    destruct (down (hosts env w (proxy_host p)) (maxfails f)) eqn:D.
    + destruct (IH w) as (res & n & evs & Hr & Hs & He).
      exists res, n, evs. split; [exact Hr|]. split; [exact Hs|].
      intros e Hin. specialize (He e Hin). destruct e; auto.
      destruct He as (? & ? & ? & ? & ?). repeat split; auto; now right.
    + unfold bind at 1. unfold call.
      destruct (connect env p state (forceTCP f) true (net env w)) as [[m|err] n1].
      * exists (Some m, None), n1, [EvConnect p state (forceTCP f) true].
        split; [reflexivity|]. split.
        -- left. exists m, [], p. auto.
        -- intros e [<-|[]]. repeat split; auto; now left.
      * unfold bind at 1. unfold deref at 1. unfold bind at 1. unfold emit at 1.
        cbn [hosts net trace].
        destruct (IH (mkWorld env (hosts env w) n1
                        ((trace env w ++ [EvConnect p state (forceTCP f) true]) ++
                         [EvLog "[WARNING] Failed to connect %s: %s"
                                [addr (hosts env w (proxy_host p))] err])))
          as (res & n & evs & Hr & Hs & He).
        rewrite Hr. cbn [hosts trace].
        exists res, n,
          ([EvConnect p state (forceTCP f) true;
            EvLog "[WARNING] Failed to connect %s: %s"
                  [addr (hosts env w (proxy_host p))] err] ++ evs).
        split; [now rewrite <- !app_assoc|]. split.
        -- destruct Hs as [(m & pre & q & -> & ->) | ->]; [left|now right].
           exists m, ([EvConnect p state (forceTCP f) true;
                       EvLog "[WARNING] Failed to connect %s: %s"
                             [addr (hosts env w (proxy_host p))] err] ++ pre), q.
           split; [reflexivity|]. now rewrite <- app_assoc.
        -- intros e [<-|[<-|Hin]].
           ++ repeat split; auto; now left.
           ++ exact I.
           ++ specialize (He e Hin). destruct e; auto.
              destruct He as (? & ? & ? & ? & ?). repeat split; auto; now right.
Qed.

Lemma Forward_Forward_run (f : Forward) (state : Request)
    (world w1 : World env) (ps : list proxy) :
  Forward_list env f world = (Return (map Some ps), w1) ->
  exists res n evs0 evs,
    forallb is_Rand evs0 = true /\
    Forward_Forward env f state world =
      (Return res,
       mkWorld env (hosts env world) n (trace env world ++ evs0 ++ evs)) /\
    ((exists m pre p, res = (Some m, None) /\
                      evs = pre ++ [EvConnect p state (forceTCP f) true]) \/
     res = (None, Some errNoHealthy)) /\
    forall e, In e evs ->
      match e with
      | EvConnect p st ft mt =>
          st = state /\ ft = forceTCP f /\ mt = true /\ In p ps /\
          down (hosts env world (proxy_host p)) (maxfails f) = false
      | EvLog _ _ _ => True
      | _ => False
      end.
Proof.
  intro Hl.
  destruct (Forward_list_rand f world) as (n0 & evs0 & Hw1 & Q0).
  rewrite Hl in Hw1. simpl in Hw1.
  destruct (range_Forward_run f state ps w1) as (res & n & evs & Hr & Hs & He).
  exists res, n, evs0, evs. split; [exact Q0|]. split.
  - unfold Forward_Forward, bind. rewrite Hl, Hr. subst w1. cbn [hosts trace].
    now rewrite app_assoc.
  - split; [exact Hs|]. subst w1. exact He.
Qed.

Lemma range_Forward_answer (f : Forward) (state : Request) (ps : list proxy) :
  forall w : World env,
  exists n evs,
    range_Forward env f state (map Some ps) w =
      (Return (match first_answer env f state (hosts env w) ps (net env w) with
               | Some (_, m) => (Some m, None)
               | None => (None, Some errNoHealthy)
               end),
       mkWorld env (hosts env w) n (trace env w ++ evs)) /\
    match first_answer env f state (hosts env w) ps (net env w) with
    | Some (p, _) => exists pre, evs = pre ++ [EvConnect p state (forceTCP f) true]
    | None => True
    end /\
    forall e, In e evs -> is_Connect e || is_Log e = true.
Proof.
  induction ps as [|p ps IH]; intro w.
  - exists (net env w), []. simpl. unfold ret. rewrite app_nil_r.
    destruct w. repeat split; auto; intros e [].
  - simpl. unfold bind at 1. unfold proxy_Down, bind at 1, deref at 1, ret at 1.
    destruct (down (hosts env w (proxy_host p)) (maxfails f)) eqn:D.
    + apply IH.
    + unfold bind at 1. unfold call.
      destruct (connect env p state (forceTCP f) true (net env w)) as [[m|err] n1].
      * exists n1, [EvConnect p state (forceTCP f) true].
        split; [reflexivity|]. split; [now exists []|].
        intros e [<-|[]]. reflexivity.
      * unfold bind at 1. unfold deref at 1. unfold bind at 1. unfold emit at 1.
        cbn [hosts net trace].
        destruct (IH (mkWorld env (hosts env w) n1
                        ((trace env w ++ [EvConnect p state (forceTCP f) true]) ++
                         [EvLog "[WARNING] Failed to connect %s: %s"
                                [addr (hosts env w (proxy_host p))] err])))
          as (n & evs & Hr & Hs & He).
        cbn [hosts net trace] in Hr, Hs. rewrite Hr.
        exists n,
          ([EvConnect p state (forceTCP f) true;
            EvLog "[WARNING] Failed to connect %s: %s"
                  [addr (hosts env w (proxy_host p))] err] ++ evs).
        split; [now rewrite <- !app_assoc|]. split.
        -- destruct (first_answer env f state (hosts env w) ps n1) as [[q m]|];
             [|exact I].
           destruct Hs as [pre ->].
           exists ([EvConnect p state (forceTCP f) true;
                    EvLog "[WARNING] Failed to connect %s: %s"
                          [addr (hosts env w (proxy_host p))] err] ++ pre).
           now rewrite <- app_assoc.
        -- intros e [<-|[<-|Hin]]; [reflexivity|reflexivity|now apply He].
Qed.

(** [Forward] returns the reply of the first upstream of its order that
    is up and whose [connect] returns a message, with no error, and that
    [connect] is its last call; when there is no such upstream it returns
    no message and [errNoHealthy].  Apart from the random draws of [list]
    it only connects and logs: it writes to no client itself. *)
Theorem Forward_returns_message_or_error (f : Forward) (state : Request)
    (world w1 : World env) (ps : list proxy) :
  Forward_list env f world = (Return (map Some ps), w1) ->
  let answer := first_answer env f state (hosts env world) ps (net env w1) in
  exists n evs,
    Forward_Forward env f state world =
      (Return (match answer with
               | Some (_, m) => (Some m, None)
               | None => (None, Some errNoHealthy)
               end),
       mkWorld env (hosts env world) n (trace env world ++ evs)) /\
    match answer with
    | Some (p, _) => exists pre, evs = pre ++ [EvConnect p state (forceTCP f) true]
    | None => True
    end /\
    forall e, In e evs -> is_Rand e || is_Connect e || is_Log e = true.
Proof.
  intros Hl answer. subst answer.
  destruct (Forward_list_rand f world) as (n0 & evs0 & Hw1 & Q0).
  rewrite Hl in Hw1. simpl in Hw1.
  destruct (range_Forward_answer f state ps w1) as (n & evs & Hr & Hs & He).
  assert (Hh : hosts env w1 = hosts env world) by now subst w1.
  rewrite Hh in Hr, Hs.
  exists n, (evs0 ++ evs). split; [|split].
  - unfold Forward_Forward, bind. rewrite Hl, Hr. subst w1. cbn [trace].
    now rewrite app_assoc.
  - destruct (first_answer env f state (hosts env world) ps (net env w1))
      as [[p m]|]; [|exact I].
    destruct Hs as [pre ->]. exists (evs0 ++ pre). now rewrite app_assoc.
  - intros e Hin. apply in_app_or in Hin. destruct Hin as [Hin|Hin].
    + now rewrite (rand_events_in _ _ Q0 Hin).
    + rewrite <- orb_assoc, (He e Hin). apply orb_true_r.
Qed.

(** [Forward] connects only to upstreams of its order that are up, and
    always with the request it was given, the configured [forceTCP] and
    metrics switched on. *)
Theorem Forward_connects_only_up (f : Forward) (state : Request)
    (world w1 : World env) (ps : list proxy) :
  Forward_list env f world = (Return (map Some ps), w1) ->
  exists n evs,
    snd (Forward_Forward env f state world) =
      mkWorld env (hosts env world) n (trace env world ++ evs) /\
    forall p st ft mt, In (EvConnect p st ft mt) evs ->
      st = state /\ ft = forceTCP f /\ mt = true /\ In p ps /\
      down (hosts env world (proxy_host p)) (maxfails f) = false.
Proof.
  intro Hl.
  destruct (Forward_Forward_run f state world w1 ps Hl)
    as (res & n & evs0 & evs & Q0 & Hrun & Hs & He).
  exists n, (evs0 ++ evs). rewrite Hrun. split; [reflexivity|].
  intros p st ft mt Hin. apply in_app_or in Hin. destruct Hin as [Hin|Hin].
  - apply (rand_events_in _ _ Q0) in Hin. discriminate.
  - exact (He _ Hin).
Qed.

Lemma all_down_loops (f : Forward) (state : Request) (ps : list proxy)
    (w : World env) :
  (forall p, In p ps -> down (hosts env w (proxy_host p)) (maxfails f) = true) ->
  range_ServeDNS env f state (map Some ps) w =
    (Return (RcodeServerFailure, Some errNoHealthy), w) /\
  range_Forward env f state (map Some ps) w =
    (Return (None, Some errNoHealthy), w).
Proof.
  induction ps as [|p ps IH]; intro H; [split; reflexivity|].
  assert (D := H p (or_introl eq_refl)).
  destruct IH as [IH1 IH2]; [intros q Hq; apply H; now right|].
  split.
  - simpl. unfold bind at 1. unfold trial, bind at 1, proxy_Down, bind at 1,
      deref at 1, ret at 1. rewrite D. unfold ret at 1. exact IH1.
  - simpl. unfold bind at 1. unfold proxy_Down, bind at 1, deref at 1, ret at 1.
    rewrite D. exact IH2.
Qed.

(** When every upstream of the order is down, both [ServeDNS] (for a
    matching request) and [Forward] give up with [errNoHealthy] in the
    state [list] left: no dial, no connect, no log line, no write. *)
Theorem all_down_gives_up_without_a_call (f : Forward) (ctx : Context)
    (w : ResponseWriter) (r : Msg) (state : Request)
    (world w1 : World env) (ps : list proxy) :
  Forward_list env f world = (Return (map Some ps), w1) ->
  (forall p, In p ps ->
     down (hosts env world (proxy_host p)) (maxfails f) = true) ->
  (Forward_match env f (mkRequest w r) = true ->
   ServeDNS env f ctx w r world =
     (Return (RcodeServerFailure, Some errNoHealthy), w1)) /\
  Forward_Forward env f state world = (Return (None, Some errNoHealthy), w1).
Proof.
  intros Hl Hd.
  assert (Hh : hosts env w1 = hosts env world).
  { pose proof (Forward_list_keeps_hosts env f world) as K.
    now rewrite Hl in K. }
  assert (Hd1 : forall p, In p ps ->
            down (hosts env w1 (proxy_host p)) (maxfails f) = true)
    by (intros p Hp; rewrite Hh; auto).
  split.
  - intro Hm. unfold ServeDNS. rewrite Hm. cbn [negb]. unfold bind. rewrite Hl.
    apply (all_down_loops f _ ps w1 Hd1).
  - unfold Forward_Forward, bind. rewrite Hl.
    apply (all_down_loops f state ps w1 Hd1).
Qed.

(** With no upstream configured, [list] asks [rand.Perm] for a
    permutation of nothing and returns the empty order; a matching
    request then ends in the server-failure code with [errNoHealthy] and
    [Forward] in [errNoHealthy], neither making any further call. *)
Theorem no_upstreams_configured (f : Forward) (ctx : Context)
    (w : ResponseWriter) (r : Msg) (state : Request) (world : World env) :
  proxies f = [] ->
  fst (rand_Perm env 0 (net env world)) = [] ->
  let w1 := mkWorld env (hosts env world)
              (snd (rand_Perm env 0 (net env world)))
              (trace env world ++ [EvRandPerm 0]) in
  Forward_list env f world = (Return [], w1) /\
  (Forward_match env f (mkRequest w r) = true ->
   ServeDNS env f ctx w r world =
     (Return (RcodeServerFailure, Some errNoHealthy), w1)) /\
  Forward_Forward env f state world = (Return (None, Some errNoHealthy), w1).
Proof.
  intros Hp Hperm w1.
  assert (Hl : Forward_list env f world = (Return [], w1)).
  { unfold Forward_list. rewrite Hp. cbn [List.length]. unfold bind, call.
    subst w1. destruct (rand_Perm env 0 (net env world)) as [perms n].
    simpl in Hperm. subst perms. reflexivity. }
  split; [exact Hl|]. split.
  - intro Hm. unfold ServeDNS. rewrite Hm. cbn [negb]. unfold bind.
    now rewrite Hl.
  - unfold Forward_Forward, bind. now rewrite Hl.
Qed.

(** ** No panic *)

Lemma all_Some (l : list proxy_ptr) :
  (forall x, In x l -> x <> None) -> exists qs, l = map Some qs.
Proof.
  induction l as [|[p|] l IH]; intro H.
  - exists []. reflexivity.
  - destruct IH as [qs ->]; [intros x Hx; apply H; now right|].
    exists (p :: qs). reflexivity.
  - exfalso. apply (H None); [now left|reflexivity].
Qed.

(** With a [rand.Perm] that delivers permutations and a configuration
    without nil upstreams, [ServeDNS], [Forward] and [Lookup] return on
    every request: no index is out of range and no nil upstream is
    reached. *)
Theorem request_path_returns (f : Forward) (ctx : Context)
    (w : ResponseWriter) (r : Msg) (state : Request) (name : string) (typ : Z)
    (world : World env) :
  (forall n s, Permutation (fst (rand_Perm env n s)) (seq 0 n)) ->
  (forall p, In p (proxies f) -> p <> None) ->
  (exists res, fst (ServeDNS env f ctx w r world) = Return res) /\
  (exists res, fst (Forward_Forward env f state world) = Return res) /\
  (exists res, fst (Lookup env f state name typ world) = Return res).
Proof.
  intros HP Hnn.
  destruct (Forward_list_run env f world HP) as (ps & n & evs & Hl & Hperm & _).
  destruct (all_Some ps) as [qs ->].
  { intros x Hx. apply Hnn. eapply Permutation_in; eauto. }
  assert (F : forall st, exists res,
            fst (Forward_Forward env f st world) = Return res).
  { intro st.
    destruct (Forward_Forward_run f st world _ qs Hl)
      as (res & n' & evs0 & evs' & _ & Hrun & _).
    exists res. now rewrite Hrun. }
  split; [|split].
  - destruct (Forward_match env f (mkRequest w r)) eqn:Hm.
    + destruct (ServeDNS_run f ctx w r world _ qs Hm Hl)
        as (_ & n' & evs0 & _ & Hrun).
      rewrite Hrun. eexists. reflexivity.
    + unfold ServeDNS. rewrite Hm. cbn [negb]. unfold call.
      destruct (NextOrFailure env _ _ _ _ _ _) as [v n']. eexists. reflexivity.
  - apply F.
  - unfold Lookup. apply F.
Qed.

End Coverage.

(** * The further facts at concrete inputs *)

Lemma Check_touches_one_host_witness :
  hosts env_flaky (snd (host_Check env_flaky 2%nat start_flaky)) 0%nat =
    hosts env_flaky start_flaky 0%nat /\
  addr (hosts env_flaky (snd (host_Check env_flaky 2%nat start_flaky)) 2%nat) =
    "10.0.0.3:53".
Proof.
  split.
  - apply (proj1 (Check_touches_one_host env_flaky 2%nat start_flaky)).
    discriminate.
  - exact (proj1 (proj2 (Check_touches_one_host env_flaky 2%nat start_flaky))).
Defined.

Lemma probe_success_reinstates_witness :
  down (hosts env_flaky start_flaky 0%nat) 2 = true /\
  down (hosts env_flaky (snd (host_Check env_flaky 0%nat start_flaky)) 0%nat) 2
    = false.
Proof.
  split; [reflexivity|].
  apply (probe_success_reinstates env_flaky 0%nat start_flaky 2).
  - lia.
  - reflexivity.
  - left. reflexivity.
Defined.

Lemma failing_probes_add_up_witness :
  fails (hosts env_flaky (snd (probes env_flaky 3%nat 2%nat fresh_flaky)) 2%nat) = 3 /\
  down (hosts env_flaky (snd (probes env_flaky 3%nat 2%nat fresh_flaky)) 2%nat) 2
    = true.
Proof.
  destruct (failing_probes_add_up env_flaky 3%nat 2%nat fresh_flaky)
    as (_ & Hf & _ & Hd).
  - reflexivity.
  - intro n. exists timed_out. split; [reflexivity|discriminate].
  - simpl. lia.
  - simpl. lia.
  - split; [exact Hf|]. apply (Hd 2); simpl; lia.
Defined.

Lemma ignored_names_form_a_set_witness :
  Forward_match env_flaky (example_org 1%nat 2) (mkRequest 7%nat www) =
  Forward_match env_flaky example_org_twice (mkRequest 7%nat www).
Proof.
  apply (proj2 (ignored_names_form_a_set env_flaky (example_org 1%nat 2)
                  example_org_twice (mkRequest 7%nat www) eq_refl)).
  intro x. simpl. tauto.
Defined.

Lemma list_of_one_or_two_witness :
  Forward_list env_flaky (example_org 1%nat 2) start_flaky =
    (Return [Some (mkProxy 0%nat)], start_flaky) /\
  fst (Forward_list env_flaky (example_org 2%nat 2) start_flaky) =
    Return [Some (mkProxy 1%nat); Some (mkProxy 0%nat)].
Proof.
  split.
  - apply (proj1 (list_of_one_or_two env_flaky (example_org 1%nat 2) start_flaky)).
    reflexivity.
  - rewrite (proj2 (list_of_one_or_two env_flaky (example_org 2%nat 2) start_flaky)
               (Some (mkProxy 0%nat)) (Some (mkProxy 1%nat)) eq_refl).
    reflexivity.
Defined.

Lemma ServeDNS_answers_once_witness :
  exists n evs,
    snd (ServeDNS env_flaky (example_org 3%nat 9) 0%nat 7%nat www start_flaky) =
      mkWorld env_flaky (hosts env_flaky start_flaky) n
        (trace env_flaky start_flaky ++ evs) /\
    fst (ServeDNS env_flaky (example_org 3%nat 9) 0%nat 7%nat www start_flaky) =
      Return (0, None) /\
    count is_ClientWrite evs = 1%nat /\ count is_Yield evs = 1%nat.
Proof.
  assert (E : fst (ServeDNS env_flaky (example_org 3%nat 9) 0%nat 7%nat www
                     start_flaky) = Return (0, None))
    by (vm_compute; reflexivity).
  destruct (ServeDNS_answers_once env_flaky (example_org 3%nat 9) 0%nat 7%nat www
              start_flaky listed_flaky order_210 eq_refl eq_refl)
    as (n & evs & Hw & [(Hr & Hc & Hy)|(Hr & _)]).
  - exists n, evs. auto.
  - rewrite E in Hr. discriminate Hr.
Defined.

Lemma ServeDNS_releases_every_connection_witness :
  exists n evs,
    snd (ServeDNS env_flaky (example_org 3%nat 9) 0%nat 7%nat www start_flaky) =
      mkWorld env_flaky (hosts env_flaky start_flaky) n
        (trace env_flaky start_flaky ++ evs) /\
    count is_WriteMsg evs = (count is_Close evs + count is_Yield evs)%nat.
Proof.
  exact (ServeDNS_releases_every_connection env_flaky (example_org 3%nat 9)
           0%nat 7%nat www start_flaky listed_flaky order_210 eq_refl eq_refl).
Defined.

Lemma ServeDNS_forwards_as_is_witness :
  exists n evs,
    snd (ServeDNS env_flaky (example_org 3%nat 9) 0%nat 7%nat www start_flaky) =
      mkWorld env_flaky (hosts env_flaky start_flaky) n
        (trace env_flaky start_flaky ++ evs) /\
    (forall c m, In (EvWriteMsg c m) evs -> m = www).
Proof.
  destruct (ServeDNS_forwards_as_is env_flaky (example_org 3%nat 9) 0%nat 7%nat www
              start_flaky listed_flaky order_210 eq_refl eq_refl)
    as (n & evs & Hw & H & _).
  exists n, evs. auto.
Defined.

Lemma ServeDNS_dials_only_up_witness :
  exists n evs,
    snd (ServeDNS env_flaky (example_org 3%nat 9) 0%nat 7%nat www start_flaky) =
      mkWorld env_flaky (hosts env_flaky start_flaky) n
        (trace env_flaky start_flaky ++ evs) /\
    forall p proto, In (EvDial p proto) evs ->
      In p order_210 /\
      down (hosts env_flaky start_flaky (proxy_host p)) 9 = false /\
      proto = "udp".
Proof.
  destruct (ServeDNS_dials_only_up env_flaky (example_org 3%nat 9) 0%nat 7%nat www
              start_flaky listed_flaky order_210 eq_refl eq_refl)
    as (n & evs & Hw & H).
  exists n, evs. split; [exact Hw|].
  intros p proto Hin. destruct (H p proto Hin) as (A & B & _ & _ & C).
  split; [exact A|]. split; [exact B|]. apply C; reflexivity.
Defined.

Lemma exhausted_after_dialling_each_up_once_witness :
  exists n evs,
    snd (ServeDNS env_refused (example_org 3%nat 9) 0%nat 7%nat www start_refused) =
      mkWorld env_refused (hosts env_refused start_refused) n
        (trace env_refused start_refused ++ evs) /\
    filter is_Dial evs =
      [EvDial (mkProxy 2%nat) "udp"; EvDial (mkProxy 1%nat) "udp";
       EvDial (mkProxy 0%nat) "udp"].
Proof.
  destruct (exhausted_after_dialling_each_up_once env_refused (example_org 3%nat 9)
              0%nat 7%nat www start_refused listed_refused order_210
              eq_refl eq_refl eq_refl)
    as (n & evs & Hw & Hd & _).
  exists n, evs. split; [exact Hw|exact Hd].
Defined.

Lemma UDPSize_is_clamped_witness :
  exists n evs,
    snd (trial env_flaky (example_org 3%nat 9) (mkRequest 7%nat www) (mkProxy 0%nat)
           start_flaky) =
      mkWorld env_flaky (hosts env_flaky start_flaky) n
        (trace env_flaky start_flaky ++ evs) /\
    UDPSize_after 0%nat evs = Some 512.
Proof.
  destruct (UDPSize_is_clamped env_flaky (example_org 3%nat 9) (mkRequest 7%nat www)
              (mkProxy 0%nat) start_flaky 0%nat eq_refl)
    as (n & evs & Hw & Hs & _).
  exists n, evs. split; [exact Hw|exact Hs].
Defined.

Lemma Forward_returns_message_or_error_witness :
  exists n evs,
    Forward_Forward env_flaky (example_org 3%nat 9) (mkRequest 7%nat www) start_flaky =
      (Return (Some (reply_with RcodeServerFailure), None),
       mkWorld env_flaky (hosts env_flaky start_flaky) n
         (trace env_flaky start_flaky ++ evs)) /\
    exists pre,
      evs = pre ++ [EvConnect (mkProxy 0%nat) (mkRequest 7%nat www) false true].
Proof.
  destruct (Forward_returns_message_or_error env_flaky (example_org 3%nat 9)
              (mkRequest 7%nat www) start_flaky listed_flaky order_210 eq_refl)
    as (n & evs & Hr & Hs & _).
  exists n, evs. split; [exact Hr|exact Hs].
Defined.

Lemma Forward_connects_only_up_witness :
  exists n evs,
    snd (Forward_Forward env_flaky (example_org 3%nat 9) (mkRequest 7%nat www)
           start_flaky) =
      mkWorld env_flaky (hosts env_flaky start_flaky) n
        (trace env_flaky start_flaky ++ evs) /\
    forall p st ft mt, In (EvConnect p st ft mt) evs ->
      st = mkRequest 7%nat www /\ ft = false /\ mt = true.
Proof.
  destruct (Forward_connects_only_up env_flaky (example_org 3%nat 9)
              (mkRequest 7%nat www) start_flaky listed_flaky order_210 eq_refl)
    as (n & evs & Hw & H).
  exists n, evs. split; [exact Hw|].
  intros p st ft mt Hin. destruct (H p st ft mt Hin) as (A & B & C & _).
  auto.
Defined.

Lemma all_down_gives_up_without_a_call_witness :
  ServeDNS env_flaky (example_org 3%nat 2) 0%nat 7%nat www start_flaky =
    (Return (RcodeServerFailure, Some errNoHealthy), listed_flaky) /\
  Forward_Forward env_flaky (example_org 3%nat 2) (mkRequest 7%nat www) start_flaky =
    (Return (None, Some errNoHealthy), listed_flaky).
Proof.
  destruct (all_down_gives_up_without_a_call env_flaky (example_org 3%nat 2)
              0%nat 7%nat www (mkRequest 7%nat www) start_flaky listed_flaky
              order_210 eq_refl) as [A B].
  - intros p Hp. reflexivity.
  - split; [apply A; reflexivity|exact B].
Defined.

Lemma no_upstreams_configured_witness :
  Forward_list env_flaky (example_org 0%nat 2) start_flaky =
    (Return [],
     mkWorld env_flaky (hosts env_flaky start_flaky) tt [EvRandPerm 0%nat]) /\
  fst (Forward_Forward env_flaky (example_org 0%nat 2) (mkRequest 7%nat www)
         start_flaky) = Return (None, Some errNoHealthy).
Proof.
  destruct (no_upstreams_configured env_flaky (example_org 0%nat 2) 0%nat 7%nat www
              (mkRequest 7%nat www) start_flaky eq_refl eq_refl) as (A & _ & B).
  split; [exact A|]. now rewrite B.
Defined.

Lemma request_path_returns_witness :
  exists res,
    fst (ServeDNS env_flaky (example_org 3%nat 9) 0%nat 7%nat www start_flaky) =
    Return res.
Proof.
  apply (request_path_returns env_flaky (example_org 3%nat 9) 0%nat 7%nat www
           (mkRequest 7%nat www) "aux.example.org." TypeA start_flaky).
  - intros n s. simpl. apply Permutation_sym, Permutation_rev.
  - intros p Hp. simpl in Hp.
    destruct Hp as [<-|[<-|[<-|[]]]]; discriminate.
Defined.
